(** * DopaReels: feed ranking and conversation composer

    A shallow embedding of the client-side logic of the DopaReels
    application:

    - the scoring and sorting of the short-video feed
      ([fetchShorts], home screen);
    - the conversation list of the message screen ([fetchChats], the
      message-changed handler of [subscribeToMessages] and the seen
      handler of [setupMessageSeenChannel]);
    - the seen bookkeeping ([markMessageAsSeen]) and the typing indicator
      ([useTypingIndicator]) of the chat component.

    The backend (authentication, queries, realtime channels) is an external
    collaborator: its answers are inputs of the functions below. *)

From Stdlib Require Import ZArith QArith Floats Lia Lqa Ascii.
From stdpp Require Import base option list gmap strings sorting pretty.

Local Open Scope Z_scope.

(** * JavaScript numbers *)

(** The arithmetic the ranking uses, as an interface with two instances:
    IEEE 754 binary64 (what a JavaScript engine computes) and exact
    rationals (the arithmetic the formulas are read in). *)
Module JsNumber.

Class Number (num : Type) := {
  of_Z : Z -> num;
  add : num -> num -> num;
  sub : num -> num -> num;
  mul : num -> num -> num;
  div : num -> num -> num;
  (** [ltb a b] is the JavaScript comparison [a < b]. *)
  ltb : num -> num -> bool
}.

(** A decimal literal [n / d], e.g. [0.3] is [literal 3 10]: the nearest
    representable number, which a correctly rounded division yields. *)
Definition literal {num} `{Number num} (n d : Z) : num :=
  div (of_Z n) (of_Z d).

Definition float_of_Z (z : Z) : float :=
  if z <? 0
  then PrimFloat.opp (PrimFloat.of_uint63 (Uint63.of_Z (- z)))
  else PrimFloat.of_uint63 (Uint63.of_Z z).

#[export] Instance binary64 : Number float := {|
  of_Z := float_of_Z;
  add := PrimFloat.add;
  sub := PrimFloat.sub;
  mul := PrimFloat.mul;
  div := PrimFloat.div;
  ltb := PrimFloat.ltb
|}.

#[export] Instance rational : Number Q := {|
  of_Z := inject_Z;
  add := Qplus;
  sub := Qminus;
  mul := Qmult;
  div := Qdiv;
  ltb := fun a b => negb (Qle_bool b a)
|}.

End JsNumber.

(** * JavaScript arrays *)

Module JsArray.

Section Sort.
Context {A : Type}.

(** [after a b] holds when the comparator called on [(a, b)] returns a
    positive number: [a] is to be placed after [b]. *)
Variable after : A -> A -> bool.

Fixpoint insert (a : A) (sorted : list A) : list A :=
  match sorted with
  | [] => [a]
  | b :: rest => if after a b then b :: insert a rest else a :: sorted
  end.

(** [Array.prototype.sort] is a stable sort: elements the comparator
    does not order keep their input order.  Stable insertion, from
    the right, is the model. *)
Fixpoint sort (l : list A) : list A :=
  match l with
  | [] => []
  | a :: rest => insert a (sort rest)
  end.
End Sort.

End JsArray.

(** * Feed ranking (home screen, [fetchShorts]) *)

Module Feed.
Import JsNumber.

(** A row of the [videos] query.  The three aggregates arrive as arrays of
    [{count}] objects; [created_at] is held as the epoch milliseconds that
    [new Date(created_at).getTime()] gives. *)
Record Short := {
  short_id : string;
  user_id : string;
  created_at : Z;
  video_views : list Z;
  likes : list Z;
  comments : list Z
}.

(** [rows[0]?.count || 0] *)
Definition count (rows : list Z) : Z :=
  match rows with
  | [] => 0
  | c :: _ => c
  end.

Record Scored (num : Type) := {
  short : Short;
  score : num
}.
Arguments short {num} _.
Arguments score {num} _.

Section Ranking.
Context {num : Type} `{Number num}.

(** [now] is [Date.now()], [followingIds] the viewer's following list. *)
Variable now : Z.
Variable followingIds : list string.

Definition engagementRate (s : Short) : num :=
  let views := count (video_views s) in
  let likes := count (likes s) in
  let comments := count (comments s) in
  if 0 <? views
  then div (of_Z (likes + comments)) (of_Z views)
  else of_Z 0.

Definition engagementScore (s : Short) : num :=
  let views := count (video_views s) in
  let likes := count (likes s) in
  let comments := count (comments s) in
  add (add (add (mul (of_Z views) (literal 3 10))
                (mul (of_Z likes) (literal 3 10)))
           (mul (of_Z comments) (literal 2 10)))
      (mul (mul (engagementRate s) (of_Z 100)) (literal 2 10)).

Definition followingBoost (s : Short) : num :=
  if bool_decide (user_id s ∈ followingIds)
  then literal 15 10 else of_Z 1.

Definition videoAge (s : Short) : Z := now - created_at s.

Definition recencyBoost (s : Short) : num :=
  if videoAge s <? 3600000 then of_Z 2
  else if videoAge s <? 86400000 then literal 15 10
  else if videoAge s <? 604800000 then literal 12 10
  else of_Z 1.

Definition trendingBoost (s : Short) : num :=
  let views := count (video_views s) in
  if 1000 <? views then literal 15 10
  else if 500 <? views then literal 13 10
  else if 100 <? views then literal 12 10
  else of_Z 1.

Definition finalScore (s : Short) : num :=
  mul (mul (mul (engagementScore s) (followingBoost s))
           (recencyBoost s))
      (trendingBoost s).

Definition withScore (s : Short) : Scored num :=
  {| short := s; score := finalScore s |}.

(** The comparator [(a, b) => b.score - a.score] is positive when
    [a.score < b.score]. *)
Definition byScore (a b : Scored num) : bool :=
  ltb (of_Z 0) (sub (score b) (score a)).

Definition scoredShorts (shortsData : list Short) : list (Scored num) :=
  JsArray.sort byScore (map withScore shortsData).
End Ranking.

End Feed.

Module FeedExamples.
Import JsNumber Feed.

Definition minutes (n : Z) : Z := n * 60000.
Definition days (n : Z) : Z := n * 86400000.

(** The post with five likes, thirty minutes old at [now]. *)
Definition fresh (now : Z) (id owner : string) : Short :=
  {| short_id := id; user_id := owner; created_at := now - minutes 30;
     video_views := [0]; likes := [5]; comments := [0] |}.

(** The post with two thousand views, ten days old at [now]. *)
Definition viral (now : Z) (id owner : string) : Short :=
  {| short_id := id; user_id := owner; created_at := now - days 10;
     video_views := [2000]; likes := [0]; comments := [0] |}.

(** A post nobody has looked at yet. *)
Definition silent (id owner : string) (created : Z) : Short :=
  {| short_id := id; user_id := owner; created_at := created;
     video_views := [0]; likes := [0]; comments := [0] |}.
(** A post with given counts, [age] milliseconds old at instant 0. *)
Definition post (owner : string) (views likes comments age : Z) : Short :=
  {| short_id := owner; user_id := owner; created_at := - age;
     video_views := [views]; likes := [likes]; comments := [comments] |}.

(** Counts and ages around every threshold of the ranking. *)
Definition sampleCounts : list Z :=
  [0; 1; 2; 5; 17; 100; 101; 500; 501; 1000; 1001; 2000; 123456].

Definition sampleAges : list Z :=
  [0; 3599999; 3600000; 86399999; 86400000; 604799999; 604800000; 999999999].

(** In binary64, does the followed owner's post outscore its unfollowed
    twin? *)
Definition followedOutscores (views likes comments age : Z) : bool :=
  ltb
    (finalScore (num := float) 0 ["dave"] (post "carol" views likes comments age))
    (finalScore (num := float) 0 ["dave"] (post "dave" views likes comments age)).

Definition followedOutscoresOnSamples : bool :=
  forallb (fun views =>
    forallb (fun likes =>
      forallb (fun comments =>
        forallb (fun age =>
          Bool.eqb (followedOutscores views likes comments age)
                   (0 <? views + likes + comments))
          sampleAges)
        sampleCounts)
      sampleCounts)
    sampleCounts.

End FeedExamples.


(** * JavaScript maps *)

(** A [Map] with string keys iterates in insertion order, and [set] on a
    present key keeps the key's place: an association list. *)
Module JsMap.

Section Map.
Context {V : Type}.

Fixpoint get (k : string) (m : list (string * V)) : option V :=
  match m with
  | [] => None
  | (k', v) :: rest => if decide (k = k') then Some v else get k rest
  end.

Fixpoint set (k : string) (v : V) (m : list (string * V)) : list (string * V) :=
  match m with
  | [] => [(k, v)]
  | (k', v') :: rest =>
      if decide (k = k') then (k', v) :: rest else (k', v') :: set k v rest
  end.

Definition keys (m : list (string * V)) : list string := map fst m.

Definition values (m : list (string * V)) : list V := map snd m.
End Map.

End JsMap.

(** * Conversation list (message screen) *)

Module MessageScreen.

Record User := {
  user_id : string;
  username : string;
  fullname : string;
  photo_url : string
}.

(** The columns of a [messages] row; [msg_created_at] is held as the epoch
    milliseconds that [new Date(created_at).getTime()] gives. *)
Record Row := {
  msg_id : string;
  sender_id : string;
  receiver_id : string;
  msg_content : string;
  msg_created_at : Z
}.

(** A row of the [fetchChats] query: the columns and the two joined user
    rows, either of which the backend may return as [null]. *)
Record Message := {
  row : Row;
  sender : option User;
  receiver : option User
}.

Record LastMessage := {
  content : string;
  created_at : Z;
  is_seen : bool
}.

Record Chat := {
  chat_id : string;
  other_user : User;
  last_message : option LastMessage;
  unread_count : Z;
  is_unread : bool
}.

(** [`${user.id}_${otherUser.id}`] *)
Definition chatIdOf (userId otherUserId : string) : string :=
  userId +:+ "_" +:+ otherUserId.

(** [chat.last_message?.created_at ? new Date(...).getTime() : 0] *)
Definition lastTime (chat : Chat) : Z :=
  match last_message chat with
  | Some lm => created_at lm
  | None => 0
  end.

(** [message.sender_id !== user.id && !isSeen] *)
Definition receivedUnseen (userId : string) (isSeen : bool) (message : Row) : bool :=
  negb (bool_decide (sender_id message = userId)) && negb isSeen.

Definition lastMessageOf (userId : string) (isSeen : bool) (message : Row) : LastMessage :=
  {| content := msg_content message;
     created_at := msg_created_at message;
     is_seen := if decide (sender_id message = userId) then isSeen else true |}.

Inductive Error := AuthError | MessagesError | TypeError.

Inductive Completion (A : Type) :=
  | Normal (a : A)
  | Return
  | Throw (e : Error).
Arguments Normal {A} _.
Arguments Return {A}.
Arguments Throw {A} _.

(** The answer of [supabase.auth.getUser()]. *)
Record AuthResponse := {
  user : option string;
  authError : bool
}.

(** The answer of the [messages] query. *)
Record MessagesResponse := {
  messages : option (list Message);
  messagesError : bool
}.

Record Screen := {
  chats : list Chat;
  isLoading : bool
}.

Section Composer.
(** [seenMessagesRef.current], the locally held set of seen message ids. *)
Variable seenMessages : gset string.

(** The body of [messages.forEach]: [None] is the [TypeError] raised by
    [otherUser.id] when the joined user row is [null]. *)
Definition addMessage (userId : string) (chatMap : list (string * Chat))
    (message : Message) : option (list (string * Chat)) :=
  otherUser ← (if decide (sender_id (row message) = userId)
               then receiver message else sender message);
  let chatId := chatIdOf userId (user_id otherUser) in
  let isSeen := bool_decide (msg_id (row message) ∈ seenMessages) in
  match JsMap.get chatId chatMap with
  | None =>
      Some (JsMap.set chatId
              {| chat_id := chatId;
                 other_user := otherUser;
                 last_message := Some (lastMessageOf userId isSeen (row message));
                 unread_count :=
                   if receivedUnseen userId isSeen (row message) then 1 else 0;
                 is_unread := receivedUnseen userId isSeen (row message) |}
              chatMap)
  | Some existingChat =>
      let existingTime := lastTime existingChat in
      let newTime := msg_created_at (row message) in
      if existingTime <? newTime then
        Some (JsMap.set chatId
                {| chat_id := chat_id existingChat;
                   other_user := other_user existingChat;
                   last_message := Some (lastMessageOf userId isSeen (row message));
                   unread_count :=
                     if receivedUnseen userId isSeen (row message)
                     then unread_count existingChat + 1
                     else unread_count existingChat;
                   is_unread :=
                     if receivedUnseen userId isSeen (row message)
                     then true else is_unread existingChat |}
                chatMap)
      else Some chatMap
  end.

Fixpoint forEach (userId : string) (messages : list Message)
    (chatMap : list (string * Chat)) : option (list (string * Chat)) :=
  match messages with
  | [] => Some chatMap
  | message :: rest =>
      chatMap' ← addMessage userId chatMap message;
      forEach userId rest chatMap'
  end.

(** The comparator [(a, b) => bTime - aTime] is positive when
    [aTime < bTime]. *)
Definition byLastTime (a b : Chat) : bool := lastTime a <? lastTime b.

(** The build of [fetchChats], from the fetched rows (newest first, or
    [null]) to the sorted array; [messages?.forEach] skips a [null]. *)
Definition buildChats (userId : string) (messages : option (list Message))
    : option (list Chat) :=
  chatMap ← forEach userId (default [] messages) [];
  Some (JsArray.sort byLastTime (JsMap.values chatMap)).

(** The [try] block of [fetchChats], up to the argument of [setChats]. *)
Definition fetchChats_try (auth : AuthResponse) (query : MessagesResponse)
    : Completion (list Chat) :=
  if authError auth then Throw AuthError else
  match user auth with
  | None => Return
  | Some userId =>
      if messagesError query then Throw MessagesError else
      match buildChats userId (messages query) with
      | None => Throw TypeError
      | Some chatArray => Normal chatArray
      end
  end.

(** [fetchChats]: [setChats] on normal completion, [console.error] in the
    [catch], [setIsLoading(false)] in the [finally]. *)
Definition fetchChats (auth : AuthResponse) (query : MessagesResponse)
    (screen : Screen) : Screen :=
  match fetchChats_try auth query with
  | Normal chatArray => {| chats := chatArray; isLoading := false |}
  | Return => {| chats := chats screen; isLoading := false |}
  | Throw _ => {| chats := chats screen; isLoading := false |}
  end.

(** The updater passed to [setChats] on a message-changed event.  The
    source writes the new fields into the summary object it found and
    returns a new array holding that object first; the array returned is
    what is modelled.  The second component tells whether [fetchChats()]
    was called. *)
Definition messageChanged (currentUserId : string) (message : Row)
    (prevChats : list Chat) : list Chat * bool :=
  let otherUserId :=
    if decide (sender_id message = currentUserId)
    then receiver_id message else sender_id message in
  let chatId := chatIdOf currentUserId otherUserId in
  let isSeen := bool_decide (msg_id message ∈ seenMessages) in
  match list_find (fun chat => chat_id chat = chatId) prevChats with
  | None => (prevChats, true)
  | Some (chatIndex, existingChat) =>
      let updated :=
        {| chat_id := chat_id existingChat;
           other_user := other_user existingChat;
           last_message := Some (lastMessageOf currentUserId isSeen message);
           unread_count :=
             if receivedUnseen currentUserId isSeen message
             then unread_count existingChat + 1
             else unread_count existingChat;
           is_unread :=
             if receivedUnseen currentUserId isSeen message
             then true else is_unread existingChat |} in
      (updated :: delete chatIndex prevChats, false)
  end.

(** [subscribeToMessages]: no subscription without a current user; the
    handler ignores an event without [payload.new]. *)
Definition subscribeToMessages (currentUserId : option string)
    : option (option Row -> list Chat -> list Chat * bool) :=
  match currentUserId with
  | None => None
  | Some userId =>
      Some (fun payload_new prevChats =>
              match payload_new with
              | Some message => messageChanged userId message prevChats
              | None => (prevChats, false)
              end)
  end.
End Composer.

Definition markSeen (chat : Chat) : Chat :=
  {| chat_id := chat_id chat;
     other_user := other_user chat;
     last_message :=
       match last_message chat with
       | Some lm =>
           Some {| content := content lm; created_at := created_at lm;
                   is_seen := true |}
       | None => None
       end;
     unread_count := unread_count chat;
     is_unread := is_unread chat |}.

(** The handler of the [seen] broadcast, [payloadUserId] being
    [payload.userId]. *)
Definition messageSeen (currentUserId payloadUserId : string)
    (prevChats : list Chat) : list Chat :=
  if decide (payloadUserId = currentUserId) then prevChats
  else map (fun chat =>
              if decide (user_id (other_user chat) = payloadUserId)
              then markSeen chat else chat)
           prevChats.

Definition setupMessageSeenChannel (currentUserId : option string)
    : option (string -> list Chat -> list Chat) :=
  match currentUserId with
  | None => None
  | Some userId => Some (messageSeen userId)
  end.

End MessageScreen.

(** * Chat component: seen bookkeeping and typing indicator *)

Module ChatComponent.

Record Message := {
  msg_id : string;
  sender_id : string;
  receiver_id : string;
  content : string;
  created_at : Z;
  media_url : option string;
  media_type : option string;
  is_seen : option bool
}.

(** What the backend does with
    [update({ is_seen: true }).eq('id', messageId)]: it writes the row,
    answers with an [error], or the call throws. *)
Inductive UpdateResult := Updated | UpdateError | UpdateThrows.

(** A [seen] broadcast: the channel name and the payload. *)
Record Broadcast := {
  channel : string;
  payload_userId : string;
  payload_messageIds : list string
}.

(** The component's state that [markMessageAsSeen] touches, together with
    the two things outside it: the persisted [is_seen] column, by message
    id, and the broadcasts sent so far. *)
Record World := {
  currentUserId : option string;
  otherUserId : string;
  seenMessagesRef : gset string;
  seenMessages : gset string;
  messages : list Message;
  persisted : gmap string bool;
  sent : list Broadcast
}.

(** [!otherUserId] on a string prop. *)
Definition falsy (s : string) : bool := bool_decide (s = "").

Definition setSeen (messageId : string) (msg : Message) : Message :=
  if decide (msg_id msg = messageId)
  then {| msg_id := msg_id msg; sender_id := sender_id msg;
          receiver_id := receiver_id msg; content := content msg;
          created_at := created_at msg; media_url := media_url msg;
          media_type := media_type msg; is_seen := Some true |}
  else msg.

Definition markMessageAsSeen (messageId : string) (result : UpdateResult)
    (w : World) : World :=
  match currentUserId w with
  | None => w
  | Some userId =>
      if falsy (otherUserId w) then w else
      let newSeenMessages := {[messageId]} ∪ seenMessagesRef w in
      {| currentUserId := currentUserId w;
         otherUserId := otherUserId w;
         seenMessagesRef := newSeenMessages;
         seenMessages := newSeenMessages;
         messages := map (setSeen messageId) (messages w);
         persisted :=
           match result with
           | Updated => alter (fun _ => true) messageId (persisted w)
           | UpdateError => persisted w
           | UpdateThrows => persisted w
           end;
         sent :=
           sent w ++
           [ {| channel := "seen:" +:+ otherUserId w +:+ ":" +:+ userId;
                payload_userId := userId;
                payload_messageIds := [messageId] |} ] |}
  end.

(** The persisted column says the message is seen. *)
Definition persistedSeen (messageId : string) (w : World) : Prop :=
  persisted w !! messageId = Some true.

(** The two recordings of the seen flag agree on a message. *)
Definition seenAgree (messageId : string) (w : World) : Prop :=
  messageId ∈ seenMessagesRef w <-> persistedSeen messageId w.

(** ** Typing indicator *)

(** The hook's state and the timers of the runtime.  Time is counted in
    milliseconds on the runtime's clock; [timers] maps the id of each
    pending timeout to the instant at which its callback runs. *)
Record TypingHook := {
  isOtherUserTyping : bool;
  typingTimeoutRef : option positive;
  timers : gmap positive nat;
  nextTimer : positive;
  clock : nat
}.

Definition mounted : TypingHook :=
  {| isOtherUserTyping := false; typingTimeoutRef := None;
     timers := ∅; nextTimer := 1%positive; clock := 0%nat |}.

Definition clearTimeout (id : positive) (h : TypingHook) : TypingHook :=
  {| isOtherUserTyping := isOtherUserTyping h;
     typingTimeoutRef := typingTimeoutRef h;
     timers := delete id (timers h);
     nextTimer := nextTimer h;
     clock := clock h |}.

Definition setTimeout (delay : nat) (h : TypingHook) : positive * TypingHook :=
  (nextTimer h,
   {| isOtherUserTyping := isOtherUserTyping h;
      typingTimeoutRef := typingTimeoutRef h;
      timers := <[nextTimer h := (clock h + delay)%nat]> (timers h);
      nextTimer := Pos.succ (nextTimer h);
      clock := clock h |}).

(** The handler of the [typing] broadcast, [payloadUserId] being
    [payload.payload.userId]. *)
Definition onTyping (otherUserId payloadUserId : string) (h : TypingHook)
    : TypingHook :=
  if decide (payloadUserId = otherUserId) then
    let h1 :=
      match typingTimeoutRef h with
      | Some id => clearTimeout id h
      | None => h
      end in
    let '(id, h2) := setTimeout 3000 h1 in
    {| isOtherUserTyping := true;
       typingTimeoutRef := Some id;
       timers := timers h2;
       nextTimer := nextTimer h2;
       clock := clock h2 |}
  else h.

(** [ms] milliseconds pass without an event.  Every timeout that falls due
    runs its callback, [setIsOtherUserTyping(false)], and is gone. *)
Definition elapse (ms : nat) (h : TypingHook) : TypingHook :=
  let clock' := (clock h + ms)%nat in
  let due := filter (fun timer => (timer.2 <= clock')%nat) (timers h) in
  {| isOtherUserTyping :=
       if decide (due = ∅) then isOtherUserTyping h else false;
     typingTimeoutRef := typingTimeoutRef h;
     timers := filter (fun timer => (clock' < timer.2)%nat) (timers h);
     nextTimer := nextTimer h;
     clock := clock' |}.

Inductive Event :=
  | Typing (userId : string)
  | Elapse (ms : nat).

Definition step (otherUserId : string) (h : TypingHook) (e : Event) : TypingHook :=
  match e with
  | Typing userId => onTyping otherUserId userId h
  | Elapse ms => elapse ms h
  end.

Definition run (otherUserId : string) (events : list Event) (h : TypingHook)
    : TypingHook :=
  fold_left (step otherUserId) events h.

(** Typing signals of the peer, a pause after each but the last. *)
Fixpoint burst (peer : string) (pauses : list nat) : list Event :=
  match pauses with
  | [] => [Typing peer]
  | ms :: rest => Typing peer :: Elapse ms :: burst peer rest
  end.

(** The indicator as shown after each event of a trace. *)
Fixpoint observe (otherUserId : string) (events : list Event) (h : TypingHook)
    : list bool :=
  match events with
  | [] => []
  | e :: rest =>
      isOtherUserTyping (step otherUserId h e)
      :: observe otherUserId rest (step otherUserId h e)
  end.

(** No typing signal of the peer among the events. *)
Definition quiet (peer : string) (events : list Event) : Prop :=
  Forall (fun e => match e with
                   | Typing userId => userId <> peer
                   | Elapse _ => True
                   end) events.

(** The time the events take. *)
Fixpoint duration (events : list Event) : nat :=
  match events with
  | [] => 0
  | Typing _ :: rest => duration rest
  | Elapse ms :: rest => ms + duration rest
  end.

(** The only timeout that may be pending is the one the ref holds. *)
Definition onlyRefPending (h : TypingHook) : Prop :=
  forall id due, timers h !! id = Some due -> typingTimeoutRef h = Some id.

End ChatComponent.

(** * Properties of feeds and conversation lists, as predicates *)

Module Properties.
Import JsNumber Feed.




(** ** Conversation list *)

(** At most one summary per peer. *)
Definition onePerPeer (chats : list MessageScreen.Chat) : Prop :=
  NoDup (map (fun chat => MessageScreen.user_id (MessageScreen.other_user chat)) chats).

(** The fetched rows are ordered newest first. *)
Definition newestFirst (messages : list MessageScreen.Message) : Prop :=
  StronglySorted
    (fun earlier later =>
       MessageScreen.msg_created_at (MessageScreen.row later)
       <= MessageScreen.msg_created_at (MessageScreen.row earlier))
    messages.

(** Both joined user rows of a fetched message are present. *)
Definition joined (message : MessageScreen.Message) : Prop :=
  is_Some (MessageScreen.sender message) /\ is_Some (MessageScreen.receiver message).

End Properties.

Module ChatExamples.
Import MessageScreen.

Definition person (id : string) : User :=
  {| user_id := id; username := id; fullname := id; photo_url := "" |}.

(** A fetched message, both joined user rows present. *)
Definition message (id : string) (from to : User) (text : string) (time : Z)
    : Message :=
  {| row := {| msg_id := id; sender_id := user_id from;
               receiver_id := user_id to; msg_content := text;
               msg_created_at := time |};
     sender := Some from;
     receiver := Some to |}.

(** A wrote to B at [t1], B answered at [t2], A wrote again at [t3]; the
    query returns the newest first. *)
Definition exchange (A B : User) (id1 id2 id3 text1 text2 text3 : string)
    (t1 t2 t3 : Z) : list Message :=
  [ message id3 A B text3 t3; message id2 B A text2 t2;
    message id1 A B text1 t1 ].

(** The summary of the conversation with [A] after the message
    [(id3, text3, t3)], with a given unread counter. *)
Definition summary (A B : User) (text3 : string) (t3 unread : Z) : Chat :=
  {| chat_id := chatIdOf (user_id B) (user_id A);
     other_user := A;
     last_message := Some {| content := text3; created_at := t3; is_seen := true |};
     unread_count := unread;
     is_unread := true |}.

(** A message whose joined user rows the backend did not return. *)
Definition orphan (id from to : string) (time : Z) : Message :=
  {| row := {| msg_id := id; sender_id := from; receiver_id := to;
               msg_content := ""; msg_created_at := time |};
     sender := None;
     receiver := None |}.

End ChatExamples.

(** * Realtime channel names *)

Module Channels.

(** [values.join(sep)] *)
Fixpoint join (sep : string) (values : list string) : string :=
  match values with
  | [] => ""
  | [value] => value
  | value :: rest => value +:+ sep +:+ join sep rest
  end.

(** [values.sort()] without a comparator orders strings by their code
    units: [a] goes after [b] when [b < a].  Strings are compared by bytes
    here, the same order on ASCII ids. *)
Definition sortStrings (values : list string) : list string :=
  JsArray.sort (fun a b => String.ltb b a) values.

(** [`typing:${[currentUserId, otherUserId].sort().join(':')}`],
    chat component, typing hook. *)
Definition typing (currentUserId otherUserId : string) : string :=
  "typing:" +:+ join ":" (sortStrings [currentUserId; otherUserId]).

(** [`presence:${currentUserId}:${otherUserId}`], chat component, presence
    hook. *)
Definition presence (currentUserId otherUserId : string) : string :=
  "presence:" +:+ currentUserId +:+ ":" +:+ otherUserId.

(** [`seen:${currentUserId}:${otherUserId}`]: where the chat component
    listens for seen broadcasts. *)
Definition chatSeen (currentUserId otherUserId : string) : string :=
  "seen:" +:+ currentUserId +:+ ":" +:+ otherUserId.

(** [`seen:${otherUserId}:${currentUserId}`]: where the chat component
    sends its seen broadcasts. *)
Definition chatSeenBroadcast (currentUserId otherUserId : string) : string :=
  "seen:" +:+ otherUserId +:+ ":" +:+ currentUserId.

(** [`seen:${currentUserId}`]: where the message screen listens for seen
    broadcasts. *)
Definition listSeen (currentUserId : string) : string :=
  "seen:" +:+ currentUserId.

(** No [':'] in an id. *)
Fixpoint colonFree (id : string) : bool :=
  match id with
  | EmptyString => true
  | String c rest => negb (Ascii.eqb c ":"%char) && colonFree rest
  end.

End Channels.

(** * Chat component: messages of the open conversation *)

Module ChatMessages.
Import ChatComponent.

(** [{ ...message, is_seen: true }] *)
Definition withSeen (msg : Message) : Message :=
  {| msg_id := msg_id msg; sender_id := sender_id msg;
     receiver_id := receiver_id msg; content := content msg;
     created_at := created_at msg; media_url := media_url msg;
     media_type := media_type msg; is_seen := Some true |}.

(** The handler of the [seen] broadcast on the chat component's channel,
    for a payload [{ userId, messageIds }].  The channel is set up only
    when both user ids are known. *)
Definition seenReceived (payloadUserId : string)
    (payloadMessageIds : list string) (w : World) : World :=
  if decide (payloadUserId = otherUserId w) then
    let newSeenMessages := seenMessagesRef w ∪ list_to_set payloadMessageIds in
    {| currentUserId := currentUserId w;
       otherUserId := otherUserId w;
       seenMessagesRef := newSeenMessages;
       seenMessages := newSeenMessages;
       messages :=
         map (fun message =>
                if bool_decide (msg_id message ∈ payloadMessageIds)
                then withSeen message else message)
             (messages w);
       persisted := persisted w;
       sent := sent w |}
  else w.

(** The component with the ref the messages effect writes. *)
Record View := {
  world : World;
  lastMessageRef : option Message
}.

(** The effect run when [messages] changes: the last message, when it is
    not the viewer's own and not yet in the seen-set, is marked as seen.
    [result] is the backend's answer to the update that may follow. *)
Definition messagesEffect (result : UpdateResult) (v : View) : View :=
  match last (messages (world v)) with
  | None => v
  | Some lastMessage =>
      {| world :=
           if negb (bool_decide (Some (sender_id lastMessage) = currentUserId (world v)))
              && negb (bool_decide (msg_id lastMessage ∈ seenMessagesRef (world v)))
           then markMessageAsSeen (msg_id lastMessage) result (world v)
           else world v;
         lastMessageRef := Some lastMessage |}
  end.

(** What [handleDeleteMessage] reads and writes. *)
Record DeleteModal := {
  shownMessages : list Message;
  selectedMessage : option Message;
  showDeleteModal : bool;
  deletionsSent : list (string * string * string);
  alerts : list string
}.

(** [handleDeleteMessage]; [deleteError] tells whether the backend answered
    the delete with an error.  A broadcast is recorded as channel name,
    [userId] and [messageId]. *)
Definition handleDeleteMessage (currentUserId : option string)
    (otherUserId : string) (deleteError : bool) (m : DeleteModal) : DeleteModal :=
  match selectedMessage m, currentUserId with
  | Some selected, Some userId =>
      if deleteError then
        {| shownMessages := shownMessages m;
           selectedMessage := selectedMessage m;
           showDeleteModal := showDeleteModal m;
           deletionsSent := deletionsSent m;
           alerts := alerts m ++ ["Failed to delete message. Please try again."] |}
      else
        {| shownMessages :=
             filter (fun msg => msg_id msg <> msg_id selected) (shownMessages m);
           selectedMessage := None;
           showDeleteModal := false;
           deletionsSent :=
             if falsy otherUserId then deletionsSent m
             else deletionsSent m ++
                  [("delete:" +:+ otherUserId +:+ ":" +:+ userId, userId,
                    msg_id selected)];
           alerts := alerts m |}
  | _, _ => m
  end.

(** The handler of the [delete] broadcast, for a payload
    [{ userId, messageId }].  The channel is set up only when both user
    ids are known. *)
Definition deletionReceived (otherUserId payloadUserId payloadMessageId : string)
    (prevMessages : list Message) : list Message :=
  if decide (payloadUserId = otherUserId)
  then filter (fun msg => msg_id msg <> payloadMessageId) prevMessages
  else prevMessages.

Section LastSeen.
(** [date.toLocaleDateString()], which depends on the device's locale. *)
Variable toLocaleDateString : Z -> string.

(** [`${n} ${unit}${n > 1 ? 's' : ''} ago`] *)
Definition ago (n : Z) (unit : string) : string :=
  pretty n +:+ " " +:+ unit +:+ (if 1 <? n then "s" else "") +:+ " ago".

(** [formatLastSeen]: [lastSeen] is the stored instant in epoch
    milliseconds, or [None] for [null]; [now] is [new Date().getTime()]. *)
Definition formatLastSeen (now : Z) (lastSeen : option Z) : string :=
  match lastSeen with
  | None => "Unknown"
  | Some lastSeenDate =>
      let diffInSeconds := (now - lastSeenDate) / 1000 in
      if diffInSeconds <? 60 then "Just now"
      else if diffInSeconds <? 3600 then ago (diffInSeconds / 60) "minute"
      else if diffInSeconds <? 86400 then ago (diffInSeconds / 3600) "hour"
      else toLocaleDateString lastSeenDate
  end.
End LastSeen.

(** The cleanup of the typing hook's effect, run on unmount and before the
    effect runs again for other user ids: the pending timeout is
    cancelled; the indicator is not written. *)
Definition cleanup (h : TypingHook) : TypingHook :=
  match typingTimeoutRef h with
  | Some id => clearTimeout id h
  | None => h
  end.

End ChatMessages.

(** * Conversations of a fetched message list *)

Module Conversations.
Import MessageScreen.

(** The other participant of a fetched message, as the build reads it. *)
Definition otherUserOf (userId : string) (message : Message) : option User :=
  if decide (sender_id (row message) = userId)
  then receiver message else sender message.

(** The key the build files a message under. *)
Definition peerKey (userId : string) (message : Message) : option string :=
  (fun otherUser => chatIdOf userId (user_id otherUser)) <$> otherUserOf userId message.

(** The messages the viewer received and has not seen, filed under a key. *)
Definition unseenReceived (seen : gset string) (userId key : string)
    (fetched : list Message) : list Message :=
  filter (fun message =>
            peerKey userId message = Some key /\
            sender_id (row message) <> userId /\
            msg_id (row message) ∉ seen)
         fetched.

(** What the fold of the build keeps true of its map once it has gone
    through the rows [processed]: every row's conversation has a summary
    at least as recent as the row, and every summary is filed under its
    own id, counts no more unread messages than its conversation has
    received unseen, is flagged unread exactly when its counter is
    positive, and shows a row of its conversation as its last message. *)
Definition filed (seen : gset string) (userId : string)
    (processed : list Message) (chatMap : list (string * Chat)) : Prop :=
  (forall message key,
      message ∈ processed -> peerKey userId message = Some key ->
      exists chat, JsMap.get key chatMap = Some chat /\
                   msg_created_at (row message) <= lastTime chat) /\
  (forall key chat,
      JsMap.get key chatMap = Some chat ->
      chat_id chat = key /\
      0 <= unread_count chat
        <= Z.of_nat (length (unseenReceived seen userId key processed)) /\
      (is_unread chat = true <-> 0 < unread_count chat) /\
      exists message,
        message ∈ processed /\ peerKey userId message = Some key /\
        last_message chat
        = Some (lastMessageOf userId
                  (bool_decide (msg_id (row message) ∈ seen)) (row message))).

End Conversations.

Module MoreExamples.
Import MessageScreen ChatExamples.

(** The three messages between A and B, oldest first. *)
Definition oldestFirst : list Message :=
  [ message "m1" (person "A") (person "B") "hi" 1;
    message "m2" (person "B") (person "A") "hello" 2;
    message "m3" (person "A") (person "B") "again" 3 ].

(** Two conversations of B, with A and with C. *)
Definition twoPeers : list Chat :=
  [ summary (person "A") (person "B") "again" 3 1;
    summary (person "C") (person "B") "bye" 2 0 ].

End MoreExamples.

(** * Facts about the stable sort *)

Section SortFacts.
Context {A : Type} (after : A -> A -> bool).

Lemma insert_Permutation a l : JsArray.insert after a l ≡ₚ a :: l.
Proof.
  induction l as [|b l IH]; simpl; [done|].
  destruct (after a b); [|done].
  rewrite IH. apply Permutation_swap.
Qed.

Lemma sort_Permutation l : JsArray.sort after l ≡ₚ l.
Proof.
  induction l as [|a l IH]; simpl; [done|].
  by rewrite insert_Permutation, IH.
Qed.

Lemma sort_length l : length (JsArray.sort after l) = length l.
Proof. apply Permutation_length, sort_Permutation. Qed.

Hypothesis after_asym : forall a b, after a b = true -> after b a = false.
Hypothesis after_trans :
  forall a b c, after a b = false -> after b c = false -> after a c = false.

Lemma insert_StronglySorted a l :
  StronglySorted (fun x y => after x y = false) l ->
  StronglySorted (fun x y => after x y = false) (JsArray.insert after a l).
Proof.
  induction l as [|b l IH]; simpl; intros Hs.
  - repeat constructor.
  - apply StronglySorted_cons in Hs as [Hb Hl].
    destruct (after a b) eqn:Hab.
    + apply StronglySorted_cons. split; [|by apply IH].
      rewrite insert_Permutation. constructor; [by apply after_asym|done].
    + apply StronglySorted_cons. split.
      * constructor; [done|].
        eapply Forall_impl; [exact Hb|]. intros c Hbc. by eapply after_trans.
      * by apply StronglySorted_cons.
Qed.

Lemma sort_StronglySorted l :
  StronglySorted (fun x y => after x y = false) (JsArray.sort after l).
Proof.
  induction l as [|a l IH]; simpl; [constructor|].
  by apply insert_StronglySorted.
Qed.


End SortFacts.
(** * Properties of the feed ranking *)

Section FeedFacts.
Import JsNumber Feed FeedExamples.

Lemma videoAge_fresh now id owner : videoAge now (fresh now id owner) = 1800000.
Proof. unfold videoAge, fresh, minutes; simpl; lia. Qed.

Lemma videoAge_viral now id owner : videoAge now (viral now id owner) = 864000000.
Proof. unfold videoAge, viral, days; simpl; lia. Qed.

Lemma finalScore_fresh now id owner :
  finalScore (num := float) now [] (fresh now id owner) = 3%float.
Proof.
  unfold finalScore, recencyBoost. rewrite videoAge_fresh.
  vm_compute. reflexivity.
Qed.

Lemma finalScore_viral now id owner :
  finalScore (num := float) now [] (viral now id owner) = 900%float.
Proof.
  unfold finalScore, recencyBoost. rewrite videoAge_viral.
  vm_compute. reflexivity.
Qed.

(** C2: with an empty following list, the five-likes post of thirty
    minutes ago scores 3.0, the two-thousand-views post of ten days ago
    scores 900, and the sorted feed shows the second before the first. *)
Theorem ranking_example_scores :
  forall (now : Z) (id1 owner1 id2 owner2 : string),
    let p1 := fresh now id1 owner1 in
    let p2 := viral now id2 owner2 in
    finalScore (num := float) now [] p1 = 3%float /\
    finalScore (num := float) now [] p2 = 900%float /\
    scoredShorts (num := float) now [] [p1; p2] =
      [ {| short := p2; score := 900%float |};
        {| short := p1; score := 3%float |} ].
Proof.
  intros now id1 owner1 id2 owner2 p1 p2.
  pose proof (finalScore_fresh now id1 owner1) as H1.
  pose proof (finalScore_viral now id2 owner2) as H2.
  fold p1 in H1. fold p2 in H2.
  split; [exact H1|]. split; [exact H2|].
  unfold scoredShorts. cbn [map]. unfold withScore.
  rewrite H1, H2. reflexivity.
Qed.

(** On the sample grid the binary64 scores order a followed owner's post and
    its unfollowed twin as exact arithmetic does: strictly, unless all the
    counts are zero. *)
Example followed_outscores_binary64_samples : followedOutscoresOnSamples = true.
Proof. vm_compute. reflexivity. Qed.

(** ** The ranking in exact arithmetic *)

Example finalScore_fresh_rational now id owner :
  (finalScore (num := Q) now [] (fresh now id owner) == 3)%Q.
Proof. unfold finalScore, recencyBoost. rewrite videoAge_fresh. reflexivity. Qed.

Example finalScore_viral_rational now id owner :
  (finalScore (num := Q) now [] (viral now id owner) == 900)%Q.
Proof. unfold finalScore, recencyBoost. rewrite videoAge_viral. reflexivity. Qed.














End FeedFacts.

(** * Facts about insertion-ordered maps *)

Section MapFacts.
Context {V : Type}.
Implicit Types (m : list (string * V)) (k : string) (v : V).

Lemma get_Some_elem k v m : JsMap.get k m = Some v -> (k, v) ∈ m.
Proof.
  induction m as [|[k' v'] m IH]; simpl; [done|].
  destruct (decide (k = k')) as [->|Hne].
  - intros [= ->]. by left.
  - intros Hget. right. by apply IH.
Qed.

Lemma get_None_keys k m : JsMap.get k m = None <-> k ∉ JsMap.keys m.
Proof.
  induction m as [|[k' v'] m IH]; simpl.
  - split; [intros _; apply not_elem_of_nil|done].
  - rewrite not_elem_of_cons. destruct (decide (k = k')) as [->|Hne].
    + split; [done|]. by intros [? _].
    + rewrite IH. tauto.
Qed.

Lemma set_fresh k v m : JsMap.get k m = None -> JsMap.set k v m = m ++ [(k, v)].
Proof.
  induction m as [|[k' v'] m IH]; simpl; [done|].
  destruct (decide (k = k')); [done|]. intros Hget. by rewrite IH.
Qed.

Lemma keys_set_present k v m :
  is_Some (JsMap.get k m) -> JsMap.keys (JsMap.set k v m) = JsMap.keys m.
Proof.
  induction m as [|[k' v'] m IH]; simpl.
  - by intros [? ?].
  - destruct (decide (k = k')); [done|]. intros Hget. simpl. by rewrite IH.
Qed.

Lemma elem_of_set k v m kv :
  kv ∈ JsMap.set k v m -> kv = (k, v) \/ kv ∈ m.
Proof.
  induction m as [|[k' v'] m IH]; simpl.
  - rewrite list_elem_of_singleton. by left.
  - destruct (decide (k = k')) as [<-|Hne]; rewrite !elem_of_cons; tauto.
Qed.
End MapFacts.

(** * Properties of the conversation list *)

Section BuildFacts.
Import MessageScreen.
Variable seen : gset string.
Variable userId : string.

Lemma chatIdOf_inj (a b : string) : chatIdOf userId a = chatIdOf userId b -> a = b.
Proof.
  unfold chatIdOf. intros Heq.
  apply (inj (String.app userId)) in Heq.
  by apply (inj (String.app "_")) in Heq.
Qed.

(** Every entry of the map is filed under the id of its peer. *)
Lemma addMessage_keyed chatMap message chatMap' :
  Forall (fun kc => kc.1 = chatIdOf userId (user_id (other_user kc.2))) chatMap ->
  addMessage seen userId chatMap message = Some chatMap' ->
  Forall (fun kc => kc.1 = chatIdOf userId (user_id (other_user kc.2))) chatMap'.
Proof.
  intros Hkeyed. unfold addMessage.
  destruct (if decide _ then _ else _) as [otherUser|]; simpl; [|done].
  destruct (JsMap.get _ chatMap) as [existingChat|] eqn:Hget.
  - destruct (_ <? _); intros [= <-]; [|done].
    apply Forall_forall. intros kc [->|Hin]%elem_of_set; simpl.
    + apply get_Some_elem in Hget.
      by apply (proj1 (Forall_forall _ _) Hkeyed) in Hget.
    + by apply (proj1 (Forall_forall _ _) Hkeyed).
  - intros [= <-]. rewrite set_fresh by done.
    apply Forall_app. split; [done|]. by constructor.
Qed.

Lemma addMessage_NoDup chatMap message chatMap' :
  NoDup (JsMap.keys chatMap) ->
  addMessage seen userId chatMap message = Some chatMap' ->
  NoDup (JsMap.keys chatMap').
Proof.
  intros Hnodup. unfold addMessage.
  destruct (if decide _ then _ else _) as [otherUser|]; simpl; [|done].
  destruct (JsMap.get _ chatMap) as [existingChat|] eqn:Hget.
  - destruct (_ <? _); intros [= <-]; [|done].
    by rewrite keys_set_present by (by rewrite Hget).
  - intros [= <-]. rewrite set_fresh by done.
    unfold JsMap.keys. rewrite map_app. simpl.
    apply NoDup_app. split; [done|]. split; [|apply NoDup_singleton].
    intros k Hk ->%list_elem_of_singleton.
    by apply get_None_keys in Hget.
Qed.

Lemma forEach_keyed messages chatMap chatMap' :
  Forall (fun kc => kc.1 = chatIdOf userId (user_id (other_user kc.2))) chatMap ->
  NoDup (JsMap.keys chatMap) ->
  forEach seen userId messages chatMap = Some chatMap' ->
  Forall (fun kc => kc.1 = chatIdOf userId (user_id (other_user kc.2))) chatMap' /\
  NoDup (JsMap.keys chatMap').
Proof.
  revert chatMap. induction messages as [|message rest IH]; simpl; intros chatMap Hk Hn.
  - by intros [= <-].
  - destruct (addMessage seen userId chatMap message) as [next|] eqn:Hadd; simpl; [|done].
    apply IH.
    + by eapply addMessage_keyed.
    + by eapply addMessage_NoDup.
Qed.

Lemma keyed_NoDup_peers (chatMap : list (string * Chat)) :
  Forall (fun kc => kc.1 = chatIdOf userId (user_id (other_user kc.2))) chatMap ->
  NoDup (JsMap.keys chatMap) ->
  Properties.onePerPeer (JsMap.values chatMap).
Proof.
  intros Hk Hn. unfold Properties.onePerPeer.
  apply (NoDup_fmap_1 (chatIdOf userId)).
  replace (chatIdOf userId <$> map _ (JsMap.values chatMap)) with (JsMap.keys chatMap);
    [done|].
  unfold JsMap.keys, JsMap.values.
  induction Hk as [|[k c] m Hkc _ IH]; simpl; [done|].
  simpl in Hkc. inversion Hn; subst. f_equal. by apply IH.
Qed.

Lemma buildChats_onePerPeer messages chatArray :
  buildChats seen userId messages = Some chatArray -> Properties.onePerPeer chatArray.
Proof.
  unfold buildChats.
  destruct (forEach _ _ _ _) as [chatMap|] eqn:Hfold; simpl; [|done].
  intros [= <-].
  apply forEach_keyed in Hfold as [Hk Hn]; [|constructor..].
  unfold Properties.onePerPeer. rewrite sort_Permutation.
  by apply keyed_NoDup_peers.
Qed.

(** With every joined row present, the build raises nothing. *)
Lemma addMessage_joined chatMap message :
  Properties.joined message -> is_Some (addMessage seen userId chatMap message).
Proof.
  intros [[s Hs] [r Hr]]. unfold addMessage. rewrite Hs, Hr.
  destruct (decide _); simpl; destruct (JsMap.get _ _); [destruct (_ <? _)|..|destruct (_ <? _)|]; done.
Qed.

Lemma forEach_joined messages chatMap :
  Forall Properties.joined messages -> is_Some (forEach seen userId messages chatMap).
Proof.
  intros Hj. revert chatMap.
  induction Hj as [|message rest Hm _ IH]; simpl; intros chatMap; [done|].
  destruct (addMessage_joined chatMap message Hm) as [next ->]. simpl. apply IH.
Qed.

Lemma buildChats_joined messages :
  Forall Properties.joined messages -> is_Some (buildChats seen userId (Some messages)).
Proof.
  intros Hj. unfold buildChats. simpl.
  destruct (forEach_joined messages [] Hj) as [chatMap ->]. done.
Qed.

(** Newest first, a conversation's summary is never overtaken: its
    counter stays at what its first message gave it. *)
Lemma forEach_unread messages chatMap chatMap' :
  Properties.newestFirst messages ->
  Forall (fun kc => 0 <= unread_count kc.2 <= 1 /\
            Forall (fun m => msg_created_at (row m) <= lastTime kc.2) messages)
         chatMap ->
  forEach seen userId messages chatMap = Some chatMap' ->
  Forall (fun kc => 0 <= unread_count kc.2 <= 1) chatMap'.
Proof.
  revert chatMap.
  induction messages as [|message rest IH]; simpl; intros chatMap Hsorted Hinv.
  - intros [= <-]. eapply Forall_impl; [exact Hinv|]. by intros kc [? _].
  - apply StronglySorted_cons in Hsorted as [Hnewest Hsorted].
    destruct (addMessage seen userId chatMap message) as [next|] eqn:Hadd; simpl; [|done].
    apply IH; [done|].
    unfold addMessage in Hadd.
    destruct (if decide _ then _ else _) as [otherUser|]; simpl in Hadd; [|done].
    destruct (JsMap.get _ chatMap) as [existingChat|] eqn:Hget.
    + apply get_Some_elem in Hget.
      pose proof (proj1 (Forall_forall _ _) Hinv _ Hget) as [_ Hlast].
      apply Forall_cons in Hlast as [Hlast _]. simpl in Hlast.
      rewrite (proj2 (Z.ltb_ge _ _) Hlast) in Hadd. injection Hadd as <-.
      eapply Forall_impl; [exact Hinv|]. intros kc [Hu Hl]. split; [done|].
      by apply Forall_cons in Hl as [_ Hl].
    + injection Hadd as <-. rewrite set_fresh by done.
      apply Forall_app. split.
      * eapply Forall_impl; [exact Hinv|]. intros kc [Hu Hl]. split; [done|].
        by apply Forall_cons in Hl as [_ Hl].
      * constructor; [|done]. simpl. split; [by destruct (receivedUnseen _ _ _)|].
        unfold lastTime. simpl. done.
Qed.

Lemma buildChats_unread messages chatArray :
  Properties.newestFirst messages ->
  buildChats seen userId (Some messages) = Some chatArray ->
  Forall (fun chat => 0 <= unread_count chat <= 1) chatArray.
Proof.
  intros Hsorted. unfold buildChats. simpl.
  destruct (forEach _ _ _ _) as [chatMap|] eqn:Hfold; simpl; [|done].
  intros [= <-]. apply forEach_unread in Hfold; [|done|constructor].
  rewrite sort_Permutation. unfold JsMap.values.
  by apply Forall_fmap.
Qed.

End BuildFacts.

Section ComposerFacts.
Import MessageScreen ChatExamples.

Lemma addMessage_first (seen : gset string) (userId : string) chatMap message otherUser :
  (if decide (sender_id (row message) = userId)
   then receiver message else sender message) = Some otherUser ->
  JsMap.get (chatIdOf userId (user_id otherUser)) chatMap = None ->
  addMessage seen userId chatMap message =
  Some (chatMap ++
        [ (chatIdOf userId (user_id otherUser),
           {| chat_id := chatIdOf userId (user_id otherUser);
              other_user := otherUser;
              last_message :=
                Some (lastMessageOf userId
                        (bool_decide (msg_id (row message) ∈ seen)) (row message));
              unread_count :=
                if receivedUnseen userId
                     (bool_decide (msg_id (row message) ∈ seen)) (row message)
                then 1 else 0;
              is_unread :=
                receivedUnseen userId
                  (bool_decide (msg_id (row message) ∈ seen)) (row message) |}) ]).
Proof.
  intros Hother Hget. unfold addMessage. rewrite Hother. simpl.
  rewrite Hget. by rewrite set_fresh.
Qed.

Lemma addMessage_not_newer (seen : gset string) (userId : string) chatMap message
    otherUser existingChat :
  (if decide (sender_id (row message) = userId)
   then receiver message else sender message) = Some otherUser ->
  JsMap.get (chatIdOf userId (user_id otherUser)) chatMap = Some existingChat ->
  msg_created_at (row message) <= lastTime existingChat ->
  addMessage seen userId chatMap message = Some chatMap.
Proof.
  intros Hother Hget Hle. unfold addMessage. rewrite Hother. simpl.
  rewrite Hget. by rewrite (proj2 (Z.ltb_ge _ _) Hle).
Qed.

Lemma exchange_build (seen : gset string) (A B : User)
    (id1 id2 id3 text1 text2 text3 : string) (t1 t2 t3 : Z) :
  user_id A <> user_id B -> t1 < t2 < t3 -> id3 ∉ seen ->
  buildChats seen (user_id B)
    (Some (exchange A B id1 id2 id3 text1 text2 text3 t1 t2 t3))
  = Some [summary A B text3 t3 1].
Proof.
  intros Hne [H12 H23] Hunseen.
  unfold buildChats, exchange. cbn [default from_option id forEach].
  rewrite (addMessage_first seen (user_id B) [] _ A);
    [|by unfold message; simpl; rewrite decide_False|done].
  cbn [mbind option_bind app].
  unfold receivedUnseen, lastMessageOf. cbn [message row sender_id msg_id].
  rewrite (bool_decide_eq_false_2 _ Hne), (bool_decide_eq_false_2 _ Hunseen),
    decide_False by done.
  cbn [negb andb].
  erewrite (addMessage_not_newer seen (user_id B) _ (message id2 B A text2 t2) A);
    [|by unfold message; simpl; rewrite decide_True
      |by simpl; rewrite decide_True
      |unfold lastTime; simpl; lia].
  cbn [mbind option_bind].
  erewrite (addMessage_not_newer seen (user_id B) _ (message id1 A B text1 t1) A);
    [|by unfold message; simpl; rewrite decide_False
      |by simpl; rewrite decide_True
      |unfold lastTime; simpl; lia].
  reflexivity.
Qed.

(** C1, as stated, fails: fetched newest first, the three messages between
    A and B give B one summary for A whose last message is the one of
    [t3], but whose unread counter is 1, not 2. *)
Lemma exchange_unread_counterexample :
  let A := person "A" in
  let B := person "B" in
  let fetched := exchange A B "m1" "m2" "m3" "hi" "hello" "again" 1 2 3 in
  buildChats ∅ "B" (Some fetched) = Some [summary A B "again" 3 1] /\
  ~ (exists chat,
       buildChats ∅ "B" (Some fetched) = Some [chat] /\
       other_user chat = A /\
       (created_at <$> last_message chat) = Some 3 /\
       unread_count chat = 2).
Proof.
  intros A B fetched.
  assert (buildChats ∅ "B" (Some fetched) = Some [summary A B "again" 3 1]) as Hbuild.
  { apply (exchange_build ∅ A B); [done|lia|apply not_elem_of_empty]. }
  split; [exact Hbuild|].
  intros (chat & Hchat & _ & _ & Hunread).
  rewrite Hbuild in Hchat. injection Hchat as <-. simpl in Hunread. lia.
Qed.

(** C1 (amended): for viewer B, the build applied to the messages
    (A→B, t1), (B→A, t2), (A→B, t3), all unseen, t1 < t2 < t3, fetched
    newest first, gives exactly one summary, whose peer is A, whose last
    message is the one of t3, and whose unread counter is 1. *)
Theorem exchange_summary :
  forall (seen : gset string) (A B : User)
         (id1 id2 id3 text1 text2 text3 : string) (t1 t2 t3 : Z),
    user_id A <> user_id B ->
    t1 < t2 < t3 ->
    id1 ∉ seen -> id2 ∉ seen -> id3 ∉ seen ->
    exists chat,
      buildChats seen (user_id B)
        (Some (exchange A B id1 id2 id3 text1 text2 text3 t1 t2 t3))
      = Some [chat] /\
      other_user chat = A /\
      (content <$> last_message chat) = Some text3 /\
      (created_at <$> last_message chat) = Some t3 /\
      unread_count chat = 1.
Proof.
  intros seen A B id1 id2 id3 text1 text2 text3 t1 t2 t3 Hne Ht _ _ Hunseen.
  exists (summary A B text3 t3 1).
  split; [by apply exchange_build|done].
Qed.

Lemma exchange_summary_witness :
  exists chat,
    buildChats ∅ (user_id (person "B"))
      (Some (exchange (person "A") (person "B") "m1" "m2" "m3"
               "hi" "hello" "again" 1 2 3))
    = Some [chat] /\
    other_user chat = person "A" /\
    (content <$> last_message chat) = Some "again" /\
    (created_at <$> last_message chat) = Some 3 /\
    unread_count chat = 1.
Proof.
  apply (exchange_summary ∅ (person "A") (person "B")).
  - simpl. discriminate.
  - lia.
  - apply not_elem_of_empty.
  - apply not_elem_of_empty.
  - apply not_elem_of_empty.
Defined.

(** C9: when the fetched rows are ordered newest first and no message id
    is in the local seen-set, every summary the build produces has an
    unread counter of at most 1; and the build does produce its summaries
    when the joined user rows are there. *)
Theorem newest_first_unread_at_most_one :
  forall (userId : string) (fetched : list Message),
    Properties.newestFirst fetched ->
    (forall chatArray,
        buildChats ∅ userId (Some fetched) = Some chatArray ->
        Forall (fun chat => unread_count chat <= 1) chatArray) /\
    (Forall Properties.joined fetched ->
     is_Some (buildChats ∅ userId (Some fetched))).
Proof.
  intros userId fetched Hsorted. split.
  - intros chatArray Hbuild.
    eapply Forall_impl; [by eapply buildChats_unread|].
    intros chat Hchat; simpl in Hchat. lia.
  - apply buildChats_joined.
Qed.

Lemma newest_first_unread_at_most_one_witness :
  let fetched :=
    exchange (person "A") (person "B") "m1" "m2" "m3" "hi" "hello" "again" 1 2 3 in
  (forall chatArray,
      buildChats ∅ "B" (Some fetched) = Some chatArray ->
      Forall (fun chat => unread_count chat <= 1) chatArray) /\
  (Forall Properties.joined fetched -> is_Some (buildChats ∅ "B" (Some fetched))).
Proof.
  intros fetched.
  apply (newest_first_unread_at_most_one "B" fetched).
  unfold Properties.newestFirst, fetched, exchange.
  repeat constructor; simpl; lia.
Defined.

End ComposerFacts.

Section LiveFacts.
Import MessageScreen ChatExamples.

Lemma fetchChats_try_authError seen auth query :
  authError auth = true -> fetchChats_try seen auth query = Throw AuthError.
Proof. intros Herr. unfold fetchChats_try. by rewrite Herr. Qed.

Lemma fetchChats_try_messagesError seen auth query userId :
  authError auth = false -> user auth = Some userId ->
  messagesError query = true ->
  fetchChats_try seen auth query = Throw MessagesError.
Proof. intros Hauth Huser Herr. unfold fetchChats_try. by rewrite Hauth, Huser, Herr. Qed.

Lemma fetchChats_try_typeError seen auth query userId :
  authError auth = false -> user auth = Some userId ->
  messagesError query = false ->
  buildChats seen userId (messages query) = None ->
  fetchChats_try seen auth query = Throw TypeError.
Proof.
  intros Hauth Huser Hquery Hbuild. unfold fetchChats_try.
  by rewrite Hauth, Huser, Hquery, Hbuild.
Qed.

(** The build raises its exception on a row without joined users. *)
Lemma buildChats_orphan seen userId messageId from to time rest :
  buildChats seen userId (Some (orphan messageId from to time :: rest)) = None.
Proof.
  unfold buildChats. cbn [default from_option id forEach].
  unfold addMessage at 1. simpl. by destruct (decide _).
Qed.

(** C8: whatever is raised during the fetch (the authentication error, the
    query error, an exception inside the build), [fetchChats] completes:
    the [try] block throws, the [catch] swallows it, and the summary list
    is the one held before. *)
Theorem fetchChats_failure_keeps_chats :
  forall (seen : gset string) (auth : AuthResponse) (query : MessagesResponse)
         (screen : Screen),
    authError auth = true \/
    (exists userId,
        user auth = Some userId /\
        (messagesError query = true \/
         buildChats seen userId (messages query) = None)) ->
    (exists e, fetchChats_try seen auth query = Throw e) /\
    fetchChats seen auth query screen
    = {| chats := chats screen; isLoading := false |}.
Proof.
  intros seen auth query screen Hfailure.
  assert (exists e, fetchChats_try seen auth query = Throw e) as [e Hthrow].
  { destruct (authError auth) eqn:Hauth.
    - exists AuthError. by apply fetchChats_try_authError.
    - destruct Hfailure as [?|(userId & Huser & [Hquery|Hbuild])]; [done|..].
      + exists MessagesError. by eapply fetchChats_try_messagesError.
      + destruct (messagesError query) eqn:Hquery.
        * exists MessagesError. by eapply fetchChats_try_messagesError.
        * exists TypeError. by eapply fetchChats_try_typeError. }
  split; [by exists e|].
  unfold fetchChats. by rewrite Hthrow.
Qed.

Lemma fetchChats_failure_keeps_chats_witness :
  let kept := [summary (person "A") (person "B") "again" 3 1] in
  let screen := {| chats := kept; isLoading := false |} in
  let auth := {| user := Some "B"; authError := false |} in
  let query := {| messages := Some [orphan "m9" "C" "B" 9]; messagesError := false |} in
  (exists e, fetchChats_try ∅ auth query = Throw e) /\
  fetchChats ∅ auth query screen = {| chats := kept; isLoading := false |}.
Proof.
  intros kept screen auth query.
  apply (fetchChats_failure_keeps_chats ∅ auth query screen).
  right. exists "B". split; [reflexivity|]. right. reflexivity.
Defined.

(** C5: when the peer key of a message-changed event has a summary in the
    list, the handler replaces that summary's last message by the event's
    (whatever the dates), adds one to its unread counter exactly when the
    message was received and its id is not in the seen-set, puts the
    summary first, and leaves the others in their order. *)
Theorem messageChanged_existing :
  forall (seen : gset string) (currentUserId : string) (message : Row)
         (prevChats : list Chat),
    let peer := if decide (sender_id message = currentUserId)
                then receiver_id message else sender_id message in
    let unseenReceived :=
      bool_decide (sender_id message <> currentUserId /\ msg_id message ∉ seen) in
    chatIdOf currentUserId peer ∈ map chat_id prevChats ->
    exists (i : nat) (existingChat updated : Chat),
      prevChats !! i = Some existingChat /\
      chat_id existingChat = chatIdOf currentUserId peer /\
      (forall j chat, prevChats !! j = Some chat -> (j < i)%nat ->
                      chat_id chat <> chatIdOf currentUserId peer) /\
      messageChanged seen currentUserId message prevChats
      = (updated :: take i prevChats ++ drop (S i) prevChats, false) /\
      chat_id updated = chat_id existingChat /\
      other_user updated = other_user existingChat /\
      last_message updated
      = Some {| content := msg_content message;
                created_at := msg_created_at message;
                is_seen := if decide (sender_id message = currentUserId)
                           then bool_decide (msg_id message ∈ seen) else true |} /\
      unread_count updated
      = unread_count existingChat + (if unseenReceived then 1 else 0) /\
      is_unread updated = unseenReceived || is_unread existingChat.
Proof.
  intros seen currentUserId message prevChats peer unseenReceived Hin.
  destruct (list_find (fun chat => chat_id chat = chatIdOf currentUserId peer)
              prevChats) as [[i existingChat]|] eqn:Hfind.
  - pose proof Hfind as (Hi & Hid & Hfirst)%list_find_Some.
    eexists i, existingChat, _. split; [done|]. split; [done|].
    split; [intros j chat Hj Hlt; by eapply Hfirst|].
    split.
    { unfold messageChanged. fold peer. rewrite Hfind.
      by rewrite delete_take_drop. }
    assert (receivedUnseen currentUserId (bool_decide (msg_id message ∈ seen)) message
            = unseenReceived) as ->.
    { unfold receivedUnseen, unseenReceived.
      repeat case_bool_decide; simpl; try done; tauto. }
    simpl. repeat split; try done; destruct unseenReceived; simpl; try done; lia.
  - exfalso. apply list_find_None in Hfind.
    apply list_elem_of_fmap in Hin as (chat & Hid & Hchat).
    by apply (proj1 (Forall_forall _ _) Hfind) in Hchat.
Qed.

Lemma messageChanged_existing_witness :
  let first := summary (person "A") (person "B") "again" 3 1 in
  let second := summary (person "C") (person "B") "bye" 2 0 in
  let message := {| msg_id := "m7"; sender_id := "C"; receiver_id := "B";
                    msg_content := "back"; msg_created_at := 1 |} in
  exists (i : nat) (existingChat updated : Chat),
    [first; second] !! i = Some existingChat /\
    chat_id existingChat = chatIdOf "B" "C" /\
    (forall j chat, [first; second] !! j = Some chat -> (j < i)%nat ->
                    chat_id chat <> chatIdOf "B" "C") /\
    messageChanged ∅ "B" message [first; second]
    = (updated :: take i [first; second] ++ drop (S i) [first; second], false) /\
    chat_id updated = chat_id existingChat /\
    other_user updated = other_user existingChat /\
    last_message updated
    = Some {| content := "back"; created_at := 1; is_seen := true |} /\
    unread_count updated = unread_count existingChat + 1 /\
    is_unread updated = true || is_unread existingChat.
Proof.
  intros first second message.
  refine (messageChanged_existing ∅ "B" message [first; second] _).
  simpl. apply (bool_decide_unpack _). vm_compute. exact I.
Defined.

Lemma markSeen_peer chat : other_user (markSeen chat) = other_user chat.
Proof. done. Qed.

Lemma messageSeen_lookup currentUserId payloadUserId prevChats (i : nat) :
  messageSeen currentUserId payloadUserId prevChats !! i
  = (fun chat =>
       if decide (payloadUserId = currentUserId) then chat
       else if decide (user_id (other_user chat) = payloadUserId)
            then markSeen chat else chat) <$> prevChats !! i.
Proof.
  unfold messageSeen. destruct (decide (payloadUserId = currentUserId)).
  - by destruct (prevChats !! i).
  - apply list_lookup_fmap.
Qed.

(** C6: a seen broadcast naming P leaves every summary whose peer is not P
    as it is; in a summary whose peer is P it sets the seen flag of the
    last message and nothing else.  No unread counter changes and every
    summary stays in its place. *)
Theorem messageSeen_frame :
  forall (currentUserId P : string) (prevChats : list Chat),
    length (messageSeen currentUserId P prevChats) = length prevChats /\
    forall (i : nat) (chat : Chat),
      prevChats !! i = Some chat ->
      exists chat',
        messageSeen currentUserId P prevChats !! i = Some chat' /\
        chat_id chat' = chat_id chat /\
        other_user chat' = other_user chat /\
        unread_count chat' = unread_count chat /\
        is_unread chat' = is_unread chat /\
        (content <$> last_message chat') = (content <$> last_message chat) /\
        (created_at <$> last_message chat') = (created_at <$> last_message chat) /\
        (user_id (other_user chat) <> P -> chat' = chat) /\
        (user_id (other_user chat) = P -> P <> currentUserId ->
         (is_seen <$> last_message chat') = ((fun _ => true) <$> last_message chat)).
Proof.
  intros currentUserId P prevChats. split.
  - unfold messageSeen. destruct (decide _); [done|]. apply length_map.
  - intros i chat Hi. rewrite messageSeen_lookup, Hi. simpl.
    eexists. split; [done|].
    destruct (decide (P = currentUserId)) as [Hself|Hother].
    + repeat split; try done; intros; congruence.
    + destruct (decide (user_id (other_user chat) = P)) as [Hpeer|Hpeer].
      * unfold markSeen. simpl.
        repeat split; try done; try (by destruct (last_message chat));
          intros; congruence.
      * repeat split; try done; intros; congruence.
Qed.

Lemma messageChanged_peers seen currentUserId message prevChats :
  map (fun chat => user_id (other_user chat))
      (messageChanged seen currentUserId message prevChats).1
  ≡ₚ map (fun chat => user_id (other_user chat)) prevChats.
Proof.
  unfold messageChanged.
  destruct (list_find _ prevChats) as [[i existingChat]|] eqn:Hfind; simpl; [|done].
  apply list_find_Some in Hfind as (Hi & _ & _).
  rewrite (delete_Permutation prevChats i existingChat Hi) at 2. done.
Qed.

Lemma messageSeen_peers currentUserId payloadUserId prevChats :
  map (fun chat => user_id (other_user chat))
      (messageSeen currentUserId payloadUserId prevChats)
  = map (fun chat => user_id (other_user chat)) prevChats.
Proof.
  unfold messageSeen. destruct (decide _); [done|].
  rewrite map_map. apply map_ext. intros chat. by destruct (decide _).
Qed.

(** C10: the cold build, the message-changed handler and the seen handler
    each keep the summary list at one summary per peer at most; what the
    build produces has that property whatever the list before. *)
Theorem composer_one_summary_per_peer :
  forall (seen : gset string) (prevChats : list Chat),
    Properties.onePerPeer prevChats ->
    (forall userId fetched chatArray,
        buildChats seen userId fetched = Some chatArray ->
        Properties.onePerPeer chatArray) /\
    (forall auth query loading,
        Properties.onePerPeer
          (chats (fetchChats seen auth query
                    {| chats := prevChats; isLoading := loading |}))) /\
    (forall currentUserId message,
        Properties.onePerPeer
          (messageChanged seen currentUserId message prevChats).1) /\
    (forall currentUserId payloadUserId,
        Properties.onePerPeer (messageSeen currentUserId payloadUserId prevChats)).
Proof.
  intros seen prevChats Hprev.
  split; [intros userId fetched chatArray; apply buildChats_onePerPeer|].
  split; [|split].
  - intros auth query loading. unfold fetchChats, fetchChats_try.
    destruct (authError auth); [done|].
    destruct (user auth) as [userId|]; [|done].
    destruct (messagesError query); [done|].
    destruct (buildChats seen userId (messages query)) as [chatArray|] eqn:Hbuild;
      [|done].
    simpl. by eapply buildChats_onePerPeer.
  - intros currentUserId message. unfold Properties.onePerPeer.
    by rewrite messageChanged_peers.
  - intros currentUserId payloadUserId. unfold Properties.onePerPeer.
    by rewrite messageSeen_peers.
Qed.

Lemma composer_one_summary_per_peer_witness :
  let prevChats := [ summary (person "A") (person "B") "again" 3 1;
                     summary (person "C") (person "B") "bye" 2 0 ] in
  (forall userId fetched chatArray,
      buildChats ∅ userId fetched = Some chatArray ->
      Properties.onePerPeer chatArray) /\
  (forall auth query loading,
      Properties.onePerPeer
        (chats (fetchChats ∅ auth query
                  {| chats := prevChats; isLoading := loading |}))) /\
  (forall currentUserId message,
      Properties.onePerPeer (messageChanged ∅ currentUserId message prevChats).1) /\
  (forall currentUserId payloadUserId,
      Properties.onePerPeer (messageSeen currentUserId payloadUserId prevChats)).
Proof.
  intros prevChats.
  apply (composer_one_summary_per_peer ∅ prevChats).
  unfold Properties.onePerPeer. simpl.
  apply (bool_decide_unpack _). vm_compute. exact I.
Defined.

End LiveFacts.

(** * Properties of the chat component *)

Section SeenFacts.
Import ChatComponent.

(** C4, as stated, fails: when the backend answers the update with an
    error, [markMessageAsSeen] completes with the message id in the local
    set while the persisted column still says unseen. *)
Lemma markMessageAsSeen_disagree_counterexample :
  let w := {| currentUserId := Some "B"; otherUserId := "A";
              seenMessagesRef := ∅; seenMessages := ∅; messages := [];
              persisted := {[ "m1" := false ]}; sent := [] |} in
  seenAgree "m1" w /\
  ~ seenAgree "m1" (markMessageAsSeen "m1" UpdateError w).
Proof.
  intros w. split.
  - unfold seenAgree, persistedSeen, w. simpl.
    rewrite lookup_singleton_eq. split; [by intros ?%not_elem_of_empty|done].
  - unfold seenAgree, persistedSeen, w. simpl.
    rewrite lookup_singleton_eq. intros [Hlocal _].
    assert (Some false = Some true) as Habsurd; [|done].
    apply Hlocal. set_solver.
Qed.

(** C4 (amended): after a completed [markMessageAsSeen(messageId)] with
    both user ids known, the message id is in the local seen-set (ref and
    state alike).  When the backend wrote the update to the message's row
    the persisted column is true as well and the two recordings agree;
    when the update failed the persisted column is as it was. *)
Theorem markMessageAsSeen_recordings :
  forall (messageId : string) (result : UpdateResult) (w : World) (userId : string),
    currentUserId w = Some userId ->
    otherUserId w <> "" ->
    messageId ∈ seenMessagesRef (markMessageAsSeen messageId result w) /\
    seenMessages (markMessageAsSeen messageId result w)
    = seenMessagesRef (markMessageAsSeen messageId result w) /\
    (result = Updated -> is_Some (persisted w !! messageId) ->
     seenAgree messageId (markMessageAsSeen messageId result w)) /\
    (result <> Updated ->
     persisted (markMessageAsSeen messageId result w) = persisted w).
Proof.
  intros messageId result w userId Huser Hother.
  unfold markMessageAsSeen. rewrite Huser.
  unfold falsy. rewrite (bool_decide_eq_false_2 _ Hother). simpl.
  split; [set_solver|]. split; [done|]. split.
  - intros -> [seenBefore Hrow]. unfold seenAgree, persistedSeen. simpl.
    rewrite lookup_alter_eq, Hrow. simpl. split; [done|set_solver].
  - intros Hfailed. by destruct result.
Qed.

Lemma markMessageAsSeen_recordings_witness :
  let w := {| currentUserId := Some "B"; otherUserId := "A";
              seenMessagesRef := ∅; seenMessages := ∅; messages := [];
              persisted := {[ "m1" := false ]}; sent := [] |} in
  "m1" ∈ seenMessagesRef (markMessageAsSeen "m1" Updated w) /\
  seenMessages (markMessageAsSeen "m1" Updated w)
  = seenMessagesRef (markMessageAsSeen "m1" Updated w) /\
  (Updated = Updated -> is_Some (persisted w !! "m1") ->
   seenAgree "m1" (markMessageAsSeen "m1" Updated w)) /\
  (Updated <> Updated ->
   persisted (markMessageAsSeen "m1" Updated w) = persisted w).
Proof.
  intros w.
  apply (markMessageAsSeen_recordings "m1" Updated w "B").
  - reflexivity.
  - simpl. discriminate.
Defined.

End SeenFacts.

Section TypingFacts.
Import ChatComponent.
Variable peer : string.

Lemma mounted_onlyRefPending : onlyRefPending mounted.
Proof. intros id due Hpending. simpl in Hpending. by rewrite lookup_empty in Hpending. Qed.

(** Clearing the timeout the ref holds leaves no timeout pending. *)
Lemma cleared_timers (h : TypingHook) :
  onlyRefPending h ->
  timers (match typingTimeoutRef h with
          | Some id => clearTimeout id h
          | None => h
          end) = ∅.
Proof.
  intros Hinv. apply map_empty. intros id.
  destruct (typingTimeoutRef h) as [held|] eqn:Href; simpl.
  - destruct (decide (held = id)) as [->|Hne]; [apply lookup_delete_eq|].
    rewrite lookup_delete_ne by done.
    destruct (timers h !! id) as [due|] eqn:Hpending; [|done].
    apply Hinv in Hpending. congruence.
  - destruct (timers h !! id) as [due|] eqn:Hpending; [|done].
    apply Hinv in Hpending. congruence.
Qed.

Lemma onTyping_armed (h : TypingHook) :
  onlyRefPending h ->
  isOtherUserTyping (onTyping peer peer h) = true /\
  typingTimeoutRef (onTyping peer peer h) = Some (nextTimer h) /\
  timers (onTyping peer peer h) = {[ nextTimer h := (clock h + 3000)%nat ]} /\
  clock (onTyping peer peer h) = clock h.
Proof.
  intros Hinv. pose proof (cleared_timers h Hinv) as Hcleared.
  unfold onTyping. rewrite decide_True by done.
  destruct (typingTimeoutRef h) as [held|]; simpl in *;
    rewrite Hcleared, insert_empty; done.
Qed.

Lemma step_onlyRefPending (h : TypingHook) (e : Event) :
  onlyRefPending h -> onlyRefPending (step peer h e).
Proof.
  intros Hinv. destruct e as [userId|ms]; simpl.
  - destruct (decide (userId = peer)) as [->|Hne].
    + destruct (onTyping_armed h Hinv) as (_ & Href & Htimers & _).
      intros id due. rewrite Htimers, Href.
      by intros [-> _]%lookup_singleton_Some.
    + unfold onTyping. by rewrite decide_False.
  - intros id due. unfold elapse; simpl.
    intros [Hpending _]%map_lookup_filter_Some. by apply Hinv in Hpending.
Qed.

Lemma run_onlyRefPending (events : list Event) (h : TypingHook) :
  onlyRefPending h -> onlyRefPending (run peer events h).
Proof.
  revert h. induction events as [|e rest IH]; simpl; intros h Hinv; [done|].
  by apply IH, step_onlyRefPending.
Qed.

(** Once the timeout has run, silence keeps the indicator off. *)
Lemma quiet_expired (silence : list Event) (h : TypingHook) :
  quiet peer silence ->
  timers h = ∅ -> isOtherUserTyping h = false ->
  isOtherUserTyping (run peer silence h) = false.
Proof.
  intros Hquiet. revert h.
  induction Hquiet as [|e rest He _ IH]; simpl; intros h Htimers Hoff; [done|].
  destruct e as [userId|ms]; simpl.
  - unfold onTyping. rewrite decide_False by done. by apply IH.
  - apply IH; unfold elapse; simpl; rewrite Htimers, !map_filter_empty; [done|].
    by rewrite decide_True.
Qed.

(** While one timeout is pending, silence keeps the indicator on until the
    timeout is due. *)
Lemma quiet_armed (silence : list Event) (h : TypingHook) (id : positive) (due : nat) :
  quiet peer silence ->
  timers h = {[ id := due ]} -> isOtherUserTyping h = true ->
  (clock h < due)%nat ->
  isOtherUserTyping (run peer silence h)
  = bool_decide (clock h + duration silence < due)%nat.
Proof.
  intros Hquiet. revert h.
  induction Hquiet as [|e rest He Hrest IH]; simpl; intros h Htimers Hon Hclock.
  - rewrite Hon. symmetry. apply bool_decide_eq_true_2. lia.
  - destruct e as [userId|ms]; simpl.
    + unfold onTyping. rewrite decide_False by done. by apply IH.
    + destruct (decide (clock h + ms < due)%nat) as [Hbefore|Hafter].
      * rewrite IH.
        -- simpl. apply bool_decide_ext. lia.
        -- unfold elapse; simpl. rewrite Htimers.
           apply map_filter_singleton_True. simpl. lia.
        -- unfold elapse; simpl. rewrite Htimers.
           rewrite map_filter_singleton_False by (simpl; lia).
           rewrite decide_True by done. done.
        -- simpl. lia.
      * rewrite quiet_expired.
        -- symmetry. apply bool_decide_eq_false_2. lia.
        -- exact Hrest.
        -- unfold elapse; simpl. rewrite Htimers.
           apply map_filter_singleton_False. simpl. lia.
        -- unfold elapse; simpl. rewrite Htimers.
           rewrite map_filter_singleton_True by (simpl; lia).
           rewrite decide_False; [done|]. apply map_non_empty_singleton.
Qed.

Lemma quiet_after_typing (silence : list Event) (h : TypingHook) :
  onlyRefPending h -> quiet peer silence ->
  isOtherUserTyping (run peer silence (onTyping peer peer h))
  = bool_decide (duration silence < 3000)%nat.
Proof.
  intros Hinv Hquiet.
  destruct (onTyping_armed h Hinv) as (Hon & _ & Htimers & Hclock).
  rewrite (quiet_armed silence _ _ _ Hquiet Htimers Hon) by lia.
  apply bool_decide_ext. lia.
Qed.

Lemma burst_last (pauses : list nat) (h : TypingHook) :
  onlyRefPending h ->
  exists h', onlyRefPending h' /\
             run peer (burst peer pauses) h = onTyping peer peer h'.
Proof.
  revert h. induction pauses as [|ms rest IH]; intros h Hinv.
  - by exists h.
  - simpl. apply IH.
    apply (step_onlyRefPending _ (Elapse ms)).
    by apply (step_onlyRefPending _ (Typing peer)).
Qed.

Lemma burst_observed (pauses : list nat) (h : TypingHook) :
  onlyRefPending h ->
  Forall (fun pause => (pause < 3000)%nat) pauses ->
  Forall (fun shown => shown = true) (observe peer (burst peer pauses) h).
Proof.
  intros Hinv Hpauses. revert h Hinv.
  induction Hpauses as [|ms rest Hms _ IH]; intros h Hinv; cbn [burst observe step].
  - constructor; [|done]. by apply onTyping_armed.
  - constructor; [by apply onTyping_armed|].
    constructor.
    + change (isOtherUserTyping (run peer [Elapse ms] (onTyping peer peer h)) = true).
      rewrite (quiet_after_typing [Elapse ms] h Hinv) by (by repeat constructor).
      apply bool_decide_eq_true_2. simpl. lia.
    + apply IH.
      apply (step_onlyRefPending _ (Elapse ms)).
      by apply (step_onlyRefPending _ (Typing peer)).
Qed.

End TypingFacts.

(** C7: a typing signal of the peer turns the indicator on; the indicator
    is off again exactly when 3000 ms have gone by without another signal
    of the peer; every signal starts the 3000 ms afresh, so the indicator
    stays on throughout a run of signals less than 3000 ms apart.  Time is
    the runtime's clock, a timeout running at the instant it falls due. *)
Theorem typing_indicator_expiry :
  forall (peer : string) (history : list ChatComponent.Event),
    let h := ChatComponent.run peer history ChatComponent.mounted in
    ChatComponent.isOtherUserTyping (ChatComponent.onTyping peer peer h) = true /\
    (forall silence,
        ChatComponent.quiet peer silence ->
        ChatComponent.isOtherUserTyping
          (ChatComponent.run peer silence (ChatComponent.onTyping peer peer h))
        = bool_decide (ChatComponent.duration silence < 3000)%nat) /\
    (forall pauses,
        Forall (fun pause => (pause < 3000)%nat) pauses ->
        Forall (fun shown => shown = true)
               (ChatComponent.observe peer (ChatComponent.burst peer pauses) h) /\
        forall silence,
          ChatComponent.quiet peer silence ->
          ChatComponent.isOtherUserTyping
            (ChatComponent.run peer silence
               (ChatComponent.run peer (ChatComponent.burst peer pauses) h))
          = bool_decide (ChatComponent.duration silence < 3000)%nat).
Proof.
  intros peer history h.
  assert (ChatComponent.onlyRefPending h) as Hinv.
  { apply run_onlyRefPending, mounted_onlyRefPending. }
  split; [by apply onTyping_armed|].
  split; [intros silence; by apply quiet_after_typing|].
  intros pauses Hpauses. split; [by apply burst_observed|].
  intros silence Hquiet.
  destruct (burst_last peer pauses h Hinv) as (h' & Hinv' & ->).
  by apply quiet_after_typing.
Qed.

(** * Further properties of the feed ranking *)

Section SortedInput.
Context {A : Type} (after : A -> A -> bool).

(** A list no element of which is to go after a later one is left as it is:
    elements the comparator does not order keep their places. *)
Lemma sort_sorted l :
  StronglySorted (fun x y => after x y = false) l -> JsArray.sort after l = l.
Proof.
  induction 1 as [|a l Hsorted IH Hhead]; simpl; [done|].
  rewrite IH. destruct l as [|b l]; simpl; [done|].
  apply Forall_cons in Hhead as [Hab _]. by rewrite Hab.
Qed.
End SortedInput.

Section FeedMore.
Import JsNumber Feed.

(** X1: the ranked feed holds exactly the fetched posts, each once for each
    time it was fetched and each with its own score, whatever the number
    arithmetic. *)
Theorem ranked_feed_is_permutation :
  forall (num : Type) (ops : Number num) (now : Z) (followingIds : list string)
         (shortsData : list Short),
    scoredShorts now followingIds shortsData
      ≡ₚ map (withScore now followingIds) shortsData /\
    length (scoredShorts now followingIds shortsData) = length shortsData /\
    map short (scoredShorts now followingIds shortsData) ≡ₚ shortsData.
Proof.
  intros num ops now followingIds shortsData. unfold scoredShorts.
  split; [apply sort_Permutation|]. split.
  - by rewrite sort_length, length_map.
  - rewrite sort_Permutation, map_map. simpl. by rewrite map_id.
Qed.



(** X3: when no fetched post is outscored by a later one, ties included,
    the ranking leaves the fetch order as it is, whatever the number
    arithmetic. *)
Theorem ranked_feed_keeps_sorted_fetch_order :
  forall (num : Type) (ops : Number num) (now : Z) (followingIds : list string)
         (shortsData : list Short),
    StronglySorted (fun x y => byScore x y = false)
                   (map (withScore now followingIds) shortsData) ->
    scoredShorts now followingIds shortsData
    = map (withScore now followingIds) shortsData.
Proof.
  intros num ops now followingIds shortsData Hsorted.
  unfold scoredShorts. by apply sort_sorted.
Qed.

Lemma ranked_feed_keeps_sorted_fetch_order_witness :
  let shortsData := [FeedExamples.silent "v1" "carol" 0; FeedExamples.silent "v2" "dave" 5;
                     FeedExamples.silent "v3" "erin" 9] in
  scoredShorts (num := float) 1000 ["dave"] shortsData
  = map (withScore 1000 ["dave"]) shortsData.
Proof.
  intros shortsData.
  apply (ranked_feed_keeps_sorted_fetch_order float binary64 1000 ["dave"] shortsData).
  repeat constructor.
Defined.

End FeedMore.

Section FeedArithmetic.
Import JsNumber Feed.











End FeedArithmetic.

(** * Further properties of the conversation list *)

Section MapLookup.
Context {V : Type}.
Implicit Types (m : list (string * V)) (k : string) (v : V).

Lemma get_set_eq k v m : JsMap.get k (JsMap.set k v m) = Some v.
Proof.
  induction m as [|[k' v'] m IH]; simpl.
  - by rewrite decide_True.
  - destruct (decide (k = k')) as [<-|Hne]; simpl.
    + by rewrite decide_True.
    + by rewrite decide_False.
Qed.

Lemma get_set_ne k k' v m : k <> k' -> JsMap.get k' (JsMap.set k v m) = JsMap.get k' m.
Proof.
  intros Hne. induction m as [|[k0 v0] m IH]; simpl.
  - by rewrite decide_False.
  - destruct (decide (k = k0)) as [<-|Hne0]; simpl.
    + by rewrite !decide_False.
    + destruct (decide (k' = k0)); [done|apply IH].
Qed.

Lemma elem_get k v m : NoDup (JsMap.keys m) -> (k, v) ∈ m -> JsMap.get k m = Some v.
Proof.
  induction m as [|[k' v'] m IH]; simpl; intros Hnodup Hin.
  - by apply elem_of_nil in Hin.
  - apply NoDup_cons in Hnodup as [Hfresh Hnodup].
    apply elem_of_cons in Hin as [[= -> ->]|Hin].
    + by rewrite decide_True.
    + destruct (decide (k = k')) as [->|Hne]; [|by apply IH].
      destruct Hfresh. apply list_elem_of_fmap. by exists (k', v).
Qed.
End MapLookup.

Section BuildInvariant.
Import MessageScreen Conversations.
Variable seen : gset string.
Variable userId : string.

Lemma unseenReceived_snoc key processed message :
  unseenReceived seen userId key (processed ++ [message])
  = unseenReceived seen userId key processed
    ++ unseenReceived seen userId key [message].
Proof. unfold unseenReceived. apply filter_app. Qed.

Lemma unseenReceived_last key message otherUser :
  otherUserOf userId message = Some otherUser ->
  key = chatIdOf userId (user_id otherUser) ->
  receivedUnseen userId (bool_decide (msg_id (row message) ∈ seen)) (row message) = true ->
  unseenReceived seen userId key [message] = [message].
Proof.
  intros Hother -> Hunseen. unfold unseenReceived.
  rewrite filter_cons_True; [done|].
  unfold peerKey. rewrite Hother. simpl.
  unfold receivedUnseen in Hunseen.
  apply andb_true_iff in Hunseen as [Hsender Hseen].
  apply negb_true_iff, bool_decide_eq_false in Hsender.
  apply negb_true_iff, bool_decide_eq_false in Hseen. done.
Qed.

Lemma addMessage_filed processed chatMap message next :
  filed seen userId processed chatMap ->
  addMessage seen userId chatMap message = Some next ->
  filed seen userId (processed ++ [message]) next.
Proof.
  intros [Hrows Hchats] Hadd. unfold addMessage in Hadd.
  destruct (if decide _ then _ else _) as [otherUser|] eqn:Hother; simpl in Hadd; [|done].
  fold (otherUserOf userId message) in Hother.
  set (key := chatIdOf userId (user_id otherUser)) in *.
  set (isSeen := bool_decide (msg_id (row message) ∈ seen)) in *.
  assert (peerKey userId message = Some key) as Hkey
    by (unfold peerKey; by rewrite Hother).
  assert (forall k, Z.of_nat (length (unseenReceived seen userId k processed))
                    <= Z.of_nat (length (unseenReceived seen userId k (processed ++ [message]))))
    as Hgrow.
  { intros k. rewrite unseenReceived_snoc, length_app. lia. }
  assert (receivedUnseen userId isSeen (row message) = true ->
          Z.of_nat (length (unseenReceived seen userId key processed)) + 1
          <= Z.of_nat (length (unseenReceived seen userId key (processed ++ [message]))))
    as Hcounted.
  { intros Hunseen. rewrite unseenReceived_snoc, length_app.
    rewrite (unseenReceived_last key message otherUser) by done. simpl. lia. }
  assert (forall k chat,
             JsMap.get k chatMap = Some chat ->
             chat_id chat = k /\
             0 <= unread_count chat
               <= Z.of_nat (length (unseenReceived seen userId k (processed ++ [message]))) /\
             (is_unread chat = true <-> 0 < unread_count chat) /\
             exists m, m ∈ processed ++ [message] /\ peerKey userId m = Some k /\
                       last_message chat
                       = Some (lastMessageOf userId
                                 (bool_decide (msg_id (row m) ∈ seen)) (row m)))
    as Hkept.
  { intros k chat Hget.
    destruct (Hchats k chat Hget) as (Hid & Hcount & Hflag & m & Hm & Hmk & Hlast).
    split; [done|]. split; [specialize (Hgrow k); lia|]. split; [done|].
    exists m. split; [|done]. apply elem_of_app. by left. }
  destruct (JsMap.get key chatMap) as [existingChat|] eqn:Hget.
  - destruct (Hchats key existingChat Hget) as (Hid & Hcount & Hflag & _).
    destruct (Z.ltb_spec (lastTime existingChat) (msg_created_at (row message)))
      as [Hnewer|Holder]; injection Hadd as <-.
    + split.
      * intros m k [Hm| ->%list_elem_of_singleton]%elem_of_app Hmk.
        -- destruct (Hrows m k Hm Hmk) as (chat & Hchat & Htime).
           destruct (decide (key = k)) as [<-|Hne].
           ++ rewrite get_set_eq. eexists. split; [done|].
              unfold lastTime at 1. simpl.
              assert (chat = existingChat) as -> by congruence. lia.
           ++ rewrite get_set_ne by done. by exists chat.
        -- assert (k = key) as -> by congruence.
           rewrite get_set_eq. eexists. split; [done|].
           unfold lastTime. simpl. lia.
      * intros k chat. destruct (decide (key = k)) as [<-|Hne].
        -- rewrite get_set_eq. intros [= <-]. simpl.
           split; [done|]. split; [|split].
           ++ destruct (receivedUnseen userId isSeen (row message)) eqn:Hunseen.
              ** specialize (Hcounted eq_refl). lia.
              ** specialize (Hgrow key). lia.
           ++ destruct (receivedUnseen userId isSeen (row message)); [|done].
              split; [lia|done].
           ++ exists message. split; [|done].
              apply elem_of_app. right. by apply list_elem_of_singleton.
        -- rewrite get_set_ne by done. apply Hkept.
    + split; [|exact Hkept].
      intros m k [Hm| ->%list_elem_of_singleton]%elem_of_app Hmk.
      * by apply Hrows.
      * assert (k = key) as -> by congruence. by exists existingChat.
  - injection Hadd as <-. split.
    + intros m k [Hm| ->%list_elem_of_singleton]%elem_of_app Hmk.
      * destruct (Hrows m k Hm Hmk) as (chat & Hchat & Htime).
        destruct (decide (key = k)) as [<-|Hne]; [congruence|].
        rewrite get_set_ne by done. by exists chat.
      * assert (k = key) as -> by congruence.
        rewrite get_set_eq. eexists. split; [done|].
        unfold lastTime. simpl. lia.
    + intros k chat. destruct (decide (key = k)) as [<-|Hne].
      * rewrite get_set_eq. intros [= <-]. simpl.
        split; [done|]. split; [|split].
        -- destruct (receivedUnseen userId isSeen (row message)) eqn:Hunseen.
           ++ specialize (Hcounted eq_refl). lia.
           ++ lia.
        -- by destruct (receivedUnseen userId isSeen (row message)).
        -- exists message. split; [|done].
           apply elem_of_app. right. by apply list_elem_of_singleton.
      * rewrite get_set_ne by done. apply Hkept.
Qed.

Lemma forEach_filed rest processed chatMap out :
  filed seen userId processed chatMap ->
  forEach seen userId rest chatMap = Some out ->
  filed seen userId (processed ++ rest) out.
Proof.
  revert processed chatMap.
  induction rest as [|message rest IH]; simpl; intros processed chatMap Hfiled.
  - intros [= <-]. by rewrite app_nil_r.
  - destruct (addMessage seen userId chatMap message) as [next|] eqn:Hadd; simpl; [|done].
    intros Hrest. rewrite cons_middle, app_assoc.
    eapply IH; [|done]. by eapply addMessage_filed.
Qed.

Lemma filed_nil : filed seen userId [] [].
Proof. split; [by intros m k ?%elem_of_nil|done]. Qed.

(** The array the build returns, against the map its fold ended with. *)
Lemma buildChats_filed fetched chatArray :
  buildChats seen userId fetched = Some chatArray ->
  exists chatMap,
    filed seen userId (default [] fetched) chatMap /\
    NoDup (JsMap.keys chatMap) /\
    chatArray ≡ₚ JsMap.values chatMap.
Proof.
  unfold buildChats.
  destruct (forEach _ _ _ _) as [chatMap|] eqn:Hfold; simpl; [|done].
  intros [= <-]. exists chatMap. split; [|split].
  - exact (forEach_filed _ [] [] _ filed_nil Hfold).
  - by apply forEach_keyed in Hfold as [_ Hnodup]; [|constructor..].
  - apply sort_Permutation.
Qed.

Lemma values_get (chatMap : list (string * Chat)) chat :
  NoDup (JsMap.keys chatMap) ->
  chat ∈ JsMap.values chatMap <-> exists key, JsMap.get key chatMap = Some chat.
Proof.
  intros Hnodup. unfold JsMap.values. rewrite list_elem_of_fmap. split.
  - intros ([k c] & -> & Hin). exists k. by apply elem_get.
  - intros [k Hget]. exists (k, chat). split; [done|]. by apply get_Some_elem.
Qed.

End BuildInvariant.

Section BuildMore.
Import MessageScreen Conversations ChatExamples MoreExamples.

Lemma byLastTime_asym (a b : Chat) : byLastTime a b = true -> byLastTime b a = false.
Proof. unfold byLastTime. rewrite Z.ltb_lt, Z.ltb_ge. lia. Qed.

Lemma byLastTime_trans (a b c : Chat) :
  byLastTime a b = false -> byLastTime b c = false -> byLastTime a c = false.
Proof. unfold byLastTime. rewrite !Z.ltb_ge. lia. Qed.

Lemma oldestFirst_build :
  buildChats ∅ "B" (Some oldestFirst)
  = Some [summary (person "A") (person "B") "again" 3 2].
Proof. vm_compute. reflexivity. Qed.

(** X7: whatever the order of the fetched rows, the summaries the build
    returns are ordered by the date of their last message, newest first. *)
Theorem buildChats_sorted_newest_first :
  forall (seen : gset string) (userId : string) (fetched : option (list Message))
         (chatArray : list Chat),
    buildChats seen userId fetched = Some chatArray ->
    StronglySorted (fun a b => lastTime b <= lastTime a) chatArray.
Proof.
  intros seen userId fetched chatArray Hbuild.
  unfold buildChats in Hbuild.
  destruct (forEach _ _ _ _) as [chatMap|]; simpl in Hbuild; [|done].
  injection Hbuild as <-.
  pose proof (sort_StronglySorted byLastTime byLastTime_asym byLastTime_trans
                (JsMap.values chatMap)) as Hsorted.
  induction Hsorted as [|a l _ IH Hhead]; constructor; [done|].
  eapply Forall_impl; [exact Hhead|].
  intros b Hab. by apply Z.ltb_ge.
Qed.

Lemma buildChats_sorted_newest_first_witness :
  StronglySorted (fun a b => lastTime b <= lastTime a)
    [ summary (person "A") (person "B") "again" 3 1;
      summary (person "C") (person "B") "bye" 2 1 ].
Proof.
  refine (buildChats_sorted_newest_first ∅ "B"
            (Some [ message "m5" (person "C") (person "B") "bye" 2;
                    message "m3" (person "A") (person "B") "again" 3 ])
            _ _).
  vm_compute. reflexivity.
Defined.

(** The rows against the summaries returned, and back. *)
Lemma buildChats_rows_and_summaries (seen : gset string) (userId : string)
    (fetched : list Message) (chatArray : list Chat) :
  buildChats seen userId (Some fetched) = Some chatArray ->
  (forall message key,
      message ∈ fetched -> peerKey userId message = Some key ->
      exists chat, chat ∈ chatArray /\ chat_id chat = key /\
                   msg_created_at (row message) <= lastTime chat) /\
  (forall chat,
      chat ∈ chatArray ->
      exists message,
        message ∈ fetched /\ peerKey userId message = Some (chat_id chat) /\
        last_message chat
        = Some (lastMessageOf userId
                  (bool_decide (msg_id (row message) ∈ seen)) (row message))).
Proof.
  intros Hbuild.
  apply buildChats_filed in Hbuild as (chatMap & [Hrows Hchats] & Hnodup & Hperm).
  simpl in Hrows, Hchats. split.
  - intros message key Hin Hkey.
    destruct (Hrows message key Hin Hkey) as (chat & Hget & Htime).
    exists chat. split; [|split; [|done]].
    + rewrite Hperm. apply values_get; [done|]. by exists key.
    + by apply Hchats in Hget as [Hid _].
  - intros chat Hin. rewrite Hperm in Hin.
    apply values_get in Hin as [key Hget]; [|done].
    destruct (Hchats key chat Hget) as (<- & _ & _ & message & Hm & Hkey & Hlast).
    by exists message.
Qed.

(** X8: whatever the order of the fetched rows, the summary of a
    conversation shows one of its messages as the last message, and none
    of the conversation's messages is more recent than it. *)
Theorem summary_shows_newest_message :
  forall (seen : gset string) (userId : string) (fetched : list Message)
         (chatArray : list Chat),
    buildChats seen userId (Some fetched) = Some chatArray ->
    (forall message key,
        message ∈ fetched -> peerKey userId message = Some key ->
        exists chat, chat ∈ chatArray /\ chat_id chat = key /\
                     msg_created_at (row message) <= lastTime chat) /\
    (forall chat,
        chat ∈ chatArray ->
        exists message,
          message ∈ fetched /\ peerKey userId message = Some (chat_id chat) /\
          last_message chat
          = Some (lastMessageOf userId
                    (bool_decide (msg_id (row message) ∈ seen)) (row message))).
Proof.
  intros seen userId fetched chatArray Hbuild.
  pose proof (buildChats_rows_and_summaries seen userId fetched chatArray Hbuild)
    as [Hrows Hchats].
  split; [exact Hrows|exact Hchats].
Qed.

Lemma summary_shows_newest_message_witness :
  let chatArray := [summary (person "A") (person "B") "again" 3 2] in
  (forall message key,
      message ∈ oldestFirst -> peerKey "B" message = Some key ->
      exists chat, chat ∈ chatArray /\ chat_id chat = key /\
                   msg_created_at (row message) <= lastTime chat) /\
  (forall chat,
      chat ∈ chatArray ->
      exists message,
        message ∈ oldestFirst /\ peerKey "B" message = Some (chat_id chat) /\
        last_message chat
        = Some (lastMessageOf "B"
                  (bool_decide (msg_id (row message) ∈ (∅ : gset string))) (row message))).
Proof.
  intros chatArray.
  refine (summary_shows_newest_message ∅ "B" oldestFirst chatArray _).
  vm_compute. reflexivity.
Defined.

(** X9: the build returns one summary for each conversation among the
    fetched rows and no other: the summary ids are the peer keys of the
    rows, each once. *)
Theorem summaries_are_the_conversations :
  forall (seen : gset string) (userId : string) (fetched : list Message)
         (chatArray : list Chat),
    buildChats seen userId (Some fetched) = Some chatArray ->
    NoDup (map chat_id chatArray) /\
    forall key,
      key ∈ map chat_id chatArray <->
      exists message, message ∈ fetched /\ peerKey userId message = Some key.
Proof.
  intros seen userId fetched chatArray Hbuild.
  pose proof (buildChats_rows_and_summaries seen userId fetched chatArray Hbuild)
    as [Hrows Hchats].
  apply buildChats_filed in Hbuild as (chatMap & [_ Hfiled] & Hnodup & Hperm).
  split.
  - rewrite Hperm.
    replace (map chat_id (JsMap.values chatMap)) with (JsMap.keys chatMap); [done|].
    unfold JsMap.keys, JsMap.values. rewrite map_map.
    apply map_ext_in. intros [k c] Hin%list_elem_of_In. simpl.
    apply elem_get in Hin; [|done]. by apply Hfiled in Hin as [-> _].
  - intros key. rewrite list_elem_of_fmap. split.
    + intros (chat & -> & Hin).
      destruct (Hchats chat Hin) as (message & Hm & Hkey & _). by exists message.
    + intros (message & Hm & Hkey).
      destruct (Hrows message key Hm Hkey) as (chat & Hin & Hid & _). by exists chat.
Qed.

Lemma summaries_are_the_conversations_witness :
  let chatArray := [summary (person "A") (person "B") "again" 3 2] in
  NoDup (map chat_id chatArray) /\
  forall key,
    key ∈ map chat_id chatArray <->
    exists message, message ∈ oldestFirst /\ peerKey "B" message = Some key.
Proof.
  intros chatArray.
  refine (summaries_are_the_conversations ∅ "B" oldestFirst chatArray _).
  vm_compute. reflexivity.
Defined.

(** X10: whatever the order of the fetched rows, a summary's unread counter
    is never negative and never more than the number of messages of its
    conversation that the viewer received and has not seen, and the
    summary is flagged unread exactly when the counter is positive. *)
Theorem unread_counter_bounds :
  forall (seen : gset string) (userId : string) (fetched : list Message)
         (chatArray : list Chat),
    buildChats seen userId (Some fetched) = Some chatArray ->
    Forall (fun chat =>
              0 <= unread_count chat
                <= Z.of_nat (length (unseenReceived seen userId (chat_id chat) fetched)) /\
              (is_unread chat = true <-> 0 < unread_count chat))
           chatArray.
Proof.
  intros seen userId fetched chatArray Hbuild.
  apply Forall_forall. intros chat Hin.
  apply buildChats_filed in Hbuild as (chatMap & [_ Hchats] & Hnodup & Hperm).
  rewrite Hperm in Hin. apply values_get in Hin as [key Hget]; [|done].
  by destruct (Hchats key chat Hget) as (<- & Hcount & Hflag & _).
Qed.

Lemma unread_counter_bounds_witness :
  Forall (fun chat =>
            0 <= unread_count chat
              <= Z.of_nat (length (unseenReceived ∅ "B" (chat_id chat) oldestFirst)) /\
            (is_unread chat = true <-> 0 < unread_count chat))
         [summary (person "A") (person "B") "again" 3 2].
Proof.
  refine (unread_counter_bounds ∅ "B" oldestFirst _ _).
  vm_compute. reflexivity.
Defined.

End BuildMore.

Section HandlersMore.
Import MessageScreen.


(** X12: the handler asks for a full rebuild exactly when no summary has
    the event's peer key, and then it leaves the list as it is. *)
Theorem messageChanged_rebuild_iff_unknown_peer :
  forall (seen : gset string) (currentUserId : string) (message : Row)
         (prevChats : list Chat),
    let peer := if decide (sender_id message = currentUserId)
                then receiver_id message else sender_id message in
    ((messageChanged seen currentUserId message prevChats).2 = true <->
     chatIdOf currentUserId peer ∉ map chat_id prevChats) /\
    ((messageChanged seen currentUserId message prevChats).2 = true ->
     (messageChanged seen currentUserId message prevChats).1 = prevChats).
Proof.
  intros seen currentUserId message prevChats peer. unfold messageChanged. fold peer.
  destruct (list_find _ prevChats) as [[i existingChat]|] eqn:Hfind; simpl.
  - apply list_find_Some in Hfind as (Hi & Hid & _).
    split; [|done]. split; [done|]. intros Hnotin. destruct Hnotin.
    apply list_elem_of_fmap. exists existingChat.
    split; [done|]. by eapply list_elem_of_lookup_2.
  - apply list_find_None in Hfind.
    split; [|done]. split; [|done]. intros _ (chat & Hid & Hin)%list_elem_of_fmap.
    by apply (proj1 (Forall_forall _ _) Hfind) in Hin.
Qed.

Lemma markSeen_idemp chat : markSeen (markSeen chat) = markSeen chat.
Proof. unfold markSeen. simpl. by destruct (last_message chat). Qed.

(** X13: handling the same seen broadcast twice changes nothing more than
    handling it once. *)
Theorem messageSeen_idempotent :
  forall (currentUserId payloadUserId : string) (prevChats : list Chat),
    messageSeen currentUserId payloadUserId
      (messageSeen currentUserId payloadUserId prevChats)
    = messageSeen currentUserId payloadUserId prevChats.
Proof.
  intros currentUserId payloadUserId prevChats. unfold messageSeen.
  destruct (decide (payloadUserId = currentUserId)); [done|].
  rewrite map_map. apply map_ext. intros chat.
  destruct (decide (user_id (other_user chat) = payloadUserId)) as [Hpeer|Hpeer].
  - rewrite decide_True by done. apply markSeen_idemp.
  - by rewrite decide_False.
Qed.

End HandlersMore.

(** * Channel names *)

Section ChannelFacts.
Import Channels.

Lemma string_app_length (a b : string) :
  String.length (a +:+ b) = (String.length a + String.length b)%nat.
Proof. induction a as [|c a IH]; simpl; [done|]. by rewrite IH. Qed.

(** X14: the message screen listens for seen broadcasts on a channel the
    chat component never sends them on, whoever the two users are; the
    chat component of the other side does listen on that channel. *)
Theorem seen_broadcast_misses_message_screen :
  forall (reader peer viewer : string),
    chatSeenBroadcast reader peer <> listSeen peer /\
    (colonFree viewer = true -> chatSeenBroadcast reader peer <> listSeen viewer) /\
    chatSeenBroadcast reader peer = chatSeen peer reader.
Proof.
  intros reader peer viewer. unfold chatSeenBroadcast, listSeen, chatSeen.
  split; [|split; [|done]].
  - intros Heq. apply (inj (String.app "seen:")) in Heq.
    apply (f_equal String.length) in Heq.
    rewrite !string_app_length in Heq. simpl in Heq. lia.
  - intros Hfree Heq. apply (inj (String.app "seen:")) in Heq. subst viewer.
    clear -Hfree. induction peer as [|c peer IH]; simpl in Hfree; [done|].
    apply andb_true_iff in Hfree as [_ Hfree]. by apply IH.
Qed.

Lemma sortStrings_pair (a b : string) :
  sortStrings [a; b] = if String.ltb b a then [b; a] else [a; b].
Proof. done. Qed.

(** X15: both sides of a conversation compute the same typing channel. *)
Theorem typing_channel_symmetric :
  forall a b : string, typing a b = typing b a.
Proof.
  intros a b. unfold typing. rewrite !sortStrings_pair.
  unfold String.ltb. rewrite (String.compare_antisym b a).
  destruct (String.compare a b) eqn:Hcompare; simpl; [|done..].
  by apply String.compare_eq_iff in Hcompare as ->.
Qed.

Lemma colon_split (a b x y : string) :
  colonFree a = true -> colonFree b = true ->
  a +:+ ":" +:+ x = b +:+ ":" +:+ y -> a = b.
Proof.
  revert b. induction a as [|c a IH]; intros [|d b] Ha Hb Heq; simpl in *.
  - done.
  - injection Heq as <- _. by rewrite Ascii.eqb_refl in Hb.
  - injection Heq as -> _. by rewrite Ascii.eqb_refl in Ha.
  - injection Heq as -> Heq.
    apply andb_true_iff in Ha as [_ Ha]. apply andb_true_iff in Hb as [_ Hb].
    f_equal. by apply IH.
Qed.

(** X16: the presence channel is not shared: two different users whose ids
    hold no colon compute different presence channels for their
    conversation. *)
Theorem presence_channel_not_shared :
  forall a b : string,
    colonFree a = true -> colonFree b = true -> a <> b ->
    presence a b <> presence b a.
Proof.
  intros a b Ha Hb Hne Heq. unfold presence in Heq.
  apply (inj (String.app "presence:")) in Heq.
  by apply colon_split in Heq.
Qed.

Lemma presence_channel_not_shared_witness :
  presence "alice" "bob" <> presence "bob" "alice".
Proof.
  apply (presence_channel_not_shared "alice" "bob").
  - reflexivity.
  - reflexivity.
  - discriminate.
Defined.

End ChannelFacts.

(** * Further properties of the chat component *)

Section ChatMessagesFacts.
Import ChatComponent ChatMessages.

Lemma setSeen_idemp messageId msg :
  setSeen messageId (setSeen messageId msg) = setSeen messageId msg.
Proof.
  unfold setSeen. destruct (decide (msg_id msg = messageId)) as [Hid|Hid]; simpl.
  - by rewrite decide_True.
  - by rewrite decide_False.
Qed.

Lemma setSeen_id messageId msg : msg_id (setSeen messageId msg) = msg_id msg.
Proof. unfold setSeen. by destruct (decide _). Qed.

Lemma setSeen_sender messageId msg : sender_id (setSeen messageId msg) = sender_id msg.
Proof. unfold setSeen. by destruct (decide _). Qed.

(** X17: a seen broadcast of the peer only adds to the seen-set: every id it
    names is in the set afterwards with all the ids held before, the
    messages keep their ids and order, the named ones are flagged seen and
    the others are untouched; a broadcast of anyone else changes nothing.
    The persisted column and the outbox are never written. *)
Theorem seenReceived_grows_seen_set :
  forall (payloadUserId : string) (payloadMessageIds : list string) (w : World),
    seenMessagesRef w ⊆ seenMessagesRef (seenReceived payloadUserId payloadMessageIds w) /\
    persisted (seenReceived payloadUserId payloadMessageIds w) = persisted w /\
    sent (seenReceived payloadUserId payloadMessageIds w) = sent w /\
    map msg_id (messages (seenReceived payloadUserId payloadMessageIds w))
    = map msg_id (messages w) /\
    (payloadUserId <> otherUserId w ->
     seenReceived payloadUserId payloadMessageIds w = w) /\
    (payloadUserId = otherUserId w ->
     (forall id, id ∈ seenMessagesRef (seenReceived payloadUserId payloadMessageIds w)
                 <-> id ∈ seenMessagesRef w \/ id ∈ payloadMessageIds) /\
     seenMessages (seenReceived payloadUserId payloadMessageIds w)
     = seenMessagesRef (seenReceived payloadUserId payloadMessageIds w) /\
     forall (i : nat) (msg : Message),
       messages w !! i = Some msg ->
       messages (seenReceived payloadUserId payloadMessageIds w) !! i
       = Some (if bool_decide (msg_id msg ∈ payloadMessageIds)
               then withSeen msg else msg)).
Proof.
  intros payloadUserId payloadMessageIds w. unfold seenReceived.
  destruct (decide (payloadUserId = otherUserId w)) as [Hpeer|Hother]; simpl.
  - split; [set_solver|]. split; [done|]. split; [done|]. split.
    { rewrite map_map. apply map_ext. intros msg. by destruct (bool_decide _). }
    split; [done|]. intros _. split; [|split; [done|]].
    + intros id. rewrite elem_of_union, elem_of_list_to_set. done.
    + intros i msg Hi. by rewrite list_lookup_fmap, Hi.
  - split; [done|]. split; [done|]. split; [done|]. split; [done|]. split; done.
Qed.

Lemma alter_true_idemp (m : gmap string bool) (k : string) :
  alter (fun _ => true) k (alter (fun _ => true) k m) = alter (fun _ => true) k m.
Proof.
  apply map_eq. intros k'. destruct (decide (k = k')) as [->|Hne].
  - rewrite !lookup_alter_eq. by destruct (m !! k').
  - by rewrite !lookup_alter_ne.
Qed.

(** X18: marking a message as seen a second time, with the same answer of
    the backend, leaves the seen-set, the messages and the persisted
    column as the first time left them; it sends the seen broadcast
    again. *)
Theorem markMessageAsSeen_again :
  forall (messageId : string) (result : UpdateResult) (w : World) (userId : string),
    currentUserId w = Some userId ->
    otherUserId w <> "" ->
    let once := markMessageAsSeen messageId result w in
    let twice := markMessageAsSeen messageId result once in
    seenMessagesRef twice = seenMessagesRef once /\
    seenMessages twice = seenMessages once /\
    messages twice = messages once /\
    persisted twice = persisted once /\
    sent twice
    = sent once ++ [ {| channel := "seen:" +:+ otherUserId w +:+ ":" +:+ userId;
                        payload_userId := userId;
                        payload_messageIds := [messageId] |} ].
Proof.
  intros messageId result w userId Huser Hother once twice.
  subst once twice. unfold markMessageAsSeen. rewrite Huser.
  unfold falsy. rewrite (bool_decide_eq_false_2 _ Hother). simpl.
  rewrite (bool_decide_eq_false_2 _ Hother). simpl.
  assert ({[messageId]} ∪ ({[messageId]} ∪ seenMessagesRef w)
          = {[messageId]} ∪ seenMessagesRef w) as ->
    by (by rewrite (assoc_L (∪)), (idemp_L (∪))).
  split; [done|]. split; [done|]. split; [|split; [|done]].
  - rewrite map_map. apply map_ext. intros msg. apply setSeen_idemp.
  - destruct result; [apply alter_true_idemp|done..].
Qed.

Lemma markMessageAsSeen_again_witness :
  let w := {| currentUserId := Some "B"; otherUserId := "A";
              seenMessagesRef := ∅; seenMessages := ∅; messages := [];
              persisted := {[ "m1" := false ]}; sent := [] |} in
  let once := markMessageAsSeen "m1" Updated w in
  let twice := markMessageAsSeen "m1" Updated once in
  seenMessagesRef twice = seenMessagesRef once /\
  seenMessages twice = seenMessages once /\
  messages twice = messages once /\
  persisted twice = persisted once /\
  sent twice
  = sent once ++ [ {| channel := "seen:" +:+ otherUserId w +:+ ":" +:+ "B";
                      payload_userId := "B";
                      payload_messageIds := ["m1"] |} ].
Proof.
  intros w.
  apply (markMessageAsSeen_again "m1" Updated w "B").
  - reflexivity.
  - simpl. discriminate.
Defined.

Lemma last_map {A B : Type} (f : A -> B) (l : list A) : last (map f l) = f <$> last l.
Proof. exact (fmap_last f l). Qed.

Lemma markMessageAsSeen_messages messageId result w :
  messages (markMessageAsSeen messageId result w) = messages w \/
  messages (markMessageAsSeen messageId result w)
  = map (setSeen messageId) (messages w).
Proof.
  unfold markMessageAsSeen. destruct (currentUserId w); [|by left].
  destruct (falsy (otherUserId w)); [by left|by right].
Qed.

Lemma markMessageAsSeen_currentUserId messageId result w :
  currentUserId (markMessageAsSeen messageId result w) = currentUserId w.
Proof.
  unfold markMessageAsSeen. destruct (currentUserId w) eqn:Huser; [|done].
  by destruct (falsy (otherUserId w)).
Qed.

Lemma markMessageAsSeen_noop_or_seen messageId result w :
  markMessageAsSeen messageId result w = w \/
  messageId ∈ seenMessagesRef (markMessageAsSeen messageId result w).
Proof.
  unfold markMessageAsSeen. destruct (currentUserId w); [|by left].
  destruct (falsy (otherUserId w)); [by left|right]. simpl. set_solver.
Qed.

(** X19: after the messages effect the last message, when it is not the
    viewer's own and both user ids are known, is in the seen-set; when it
    is the viewer's own nothing is marked; and running the effect again
    changes nothing more and sends nothing more, whatever the backend
    answers. *)
Theorem messagesEffect_marks_last_once :
  forall (result result' : UpdateResult) (v : View),
    (forall lastMessage userId,
        last (messages (world v)) = Some lastMessage ->
        currentUserId (world v) = Some userId ->
        otherUserId (world v) <> "" ->
        sender_id lastMessage <> userId ->
        msg_id lastMessage ∈ seenMessagesRef (world (messagesEffect result v))) /\
    (forall lastMessage,
        last (messages (world v)) = Some lastMessage ->
        currentUserId (world v) = Some (sender_id lastMessage) ->
        world (messagesEffect result v) = world v) /\
    world (messagesEffect result' (messagesEffect result v))
    = world (messagesEffect result v).
Proof.
  intros result result' v. split; [|split].
  - intros lastMessage userId Hlast Huser Hother Hsender.
    unfold messagesEffect. rewrite Hlast. simpl.
    rewrite Huser. rewrite bool_decide_eq_false_2 by congruence. simpl.
    destruct (bool_decide (msg_id lastMessage ∈ seenMessagesRef (world v))) eqn:Hseen;
      simpl.
    + by apply bool_decide_eq_true in Hseen.
    + unfold markMessageAsSeen. rewrite Huser. unfold falsy.
      rewrite (bool_decide_eq_false_2 _ Hother). simpl. set_solver.
  - intros lastMessage Hlast Huser. unfold messagesEffect. rewrite Hlast. simpl.
    by rewrite Huser, bool_decide_eq_true_2.
  - destruct (last (messages (world v))) as [lastMessage|] eqn:Hlast.
    2: { unfold messagesEffect. rewrite Hlast. simpl. by rewrite Hlast. }
    assert (forall r w, w = world v ->
              currentUserId w = None \/ falsy (otherUserId w) = true ->
              markMessageAsSeen (msg_id lastMessage) r w = w) as Hnoop.
    { intros r w _ Hcase. unfold markMessageAsSeen.
      destruct (currentUserId w); [|done].
      destruct Hcase as [Hnone|Hfalsy]; [done|]. by rewrite Hfalsy. }
    destruct (currentUserId (world v)) as [userId|] eqn:Huser.
    2: { unfold messagesEffect. rewrite Hlast. simpl.
         rewrite !Hnoop by (rewrite ?Huser; auto).
         rewrite Tauto.if_same. simpl. rewrite Hlast. simpl.
         rewrite !Hnoop by (rewrite ?Huser; auto). by rewrite Tauto.if_same. }
    destruct (falsy (otherUserId (world v))) eqn:Hother.
    { unfold messagesEffect. rewrite Hlast. simpl.
      rewrite !Hnoop by auto.
      rewrite Tauto.if_same. simpl. rewrite Hlast. simpl.
      rewrite !Hnoop by auto. by rewrite Tauto.if_same. }
    unfold messagesEffect at 2 3. rewrite Hlast. simpl.
    destruct (negb (bool_decide (Some (sender_id lastMessage) = currentUserId (world v)))
              && negb (bool_decide (msg_id lastMessage ∈ seenMessagesRef (world v))))
      eqn:Hmarking.
    + unfold messagesEffect. simpl.
      assert (messages (markMessageAsSeen (msg_id lastMessage) result (world v))
              = map (setSeen (msg_id lastMessage)) (messages (world v)) /\
              msg_id lastMessage
              ∈ seenMessagesRef (markMessageAsSeen (msg_id lastMessage) result (world v)))
        as [Hflagged Hnow].
      { unfold markMessageAsSeen. rewrite Huser, Hother. simpl. split; [done|].
        apply elem_of_union_l, elem_of_singleton. reflexivity. }
      rewrite Hflagged, last_map, Hlast. simpl. rewrite setSeen_id.
      rewrite (bool_decide_eq_true_2 _ Hnow). by rewrite andb_false_r.
    + unfold messagesEffect. simpl. rewrite Hlast. simpl. by rewrite Hmarking.
Qed.

(** X20: a delete the backend accepted removes from the shown messages
    every message with the selected id and no other, keeps the rest in
    their order, closes the modal and sends one deletion broadcast; a
    delete the backend refused, or one without a selection or a user,
    leaves messages, selection and outbox as they were. *)
Theorem handleDeleteMessage_removes_selected :
  forall (currentUserId : option string) (otherUserId : string) (deleteError : bool)
         (m : DeleteModal),
    let m' := handleDeleteMessage currentUserId otherUserId deleteError m in
    (forall selected userId,
        selectedMessage m = Some selected -> currentUserId = Some userId ->
        deleteError = false ->
        shownMessages m'
        = filter (fun msg => msg_id msg <> msg_id selected) (shownMessages m) /\
        (forall msg, msg ∈ shownMessages m' <->
                     msg ∈ shownMessages m /\ msg_id msg <> msg_id selected) /\
        shownMessages m' `sublist_of` shownMessages m /\
        selectedMessage m' = None /\ showDeleteModal m' = false /\
        alerts m' = alerts m /\
        (otherUserId <> "" ->
         deletionsSent m'
         = deletionsSent m ++ [("delete:" +:+ otherUserId +:+ ":" +:+ userId,
                                userId, msg_id selected)])) /\
    (selectedMessage m = None \/ currentUserId = None \/ deleteError = true ->
     shownMessages m' = shownMessages m /\
     selectedMessage m' = selectedMessage m /\
     showDeleteModal m' = showDeleteModal m /\
     deletionsSent m' = deletionsSent m).
Proof.
  intros currentUserId otherUserId deleteError m m'. subst m'.
  unfold handleDeleteMessage. split.
  - intros selected userId -> -> ->. simpl.
    split; [done|]. split; [|split; [apply sublist_filter|]].
    + intros msg. by rewrite list_elem_of_filter, (comm and).
    + repeat split; try done. intros Hother.
      unfold falsy. by rewrite bool_decide_eq_false_2.
  - intros Hcase.
    destruct (selectedMessage m) as [selected|] eqn:Hselected; [|done].
    destruct currentUserId as [userId|]; [|done].
    destruct Hcase as [Hnone|[Hnone|Herror]]; [done..|]. by rewrite Herror.
Qed.

(** X21: a deletion broadcast of the peer removes every message with the
    named id and no other, keeping the rest in their order, and handling
    it again changes nothing; a broadcast of anyone else is ignored. *)
Theorem deletionReceived_removes_named :
  forall (otherUserId payloadUserId payloadMessageId : string)
         (prevMessages : list Message),
    let after := deletionReceived otherUserId payloadUserId payloadMessageId
                   prevMessages in
    (payloadUserId = otherUserId ->
     forall msg, msg ∈ after <-> msg ∈ prevMessages /\ msg_id msg <> payloadMessageId) /\
    (payloadUserId <> otherUserId -> after = prevMessages) /\
    after `sublist_of` prevMessages /\
    deletionReceived otherUserId payloadUserId payloadMessageId after = after.
Proof.
  intros otherUserId payloadUserId payloadMessageId prevMessages after. subst after.
  unfold deletionReceived.
  destruct (decide (payloadUserId = otherUserId)) as [Hpeer|Hother].
  - split; [|split; [done|split; [apply sublist_filter|]]].
    + intros _ msg. by rewrite list_elem_of_filter, (comm and).
    + induction prevMessages as [|msg rest IH]; [done|].
      rewrite filter_cons. destruct (decide (msg_id msg <> payloadMessageId)).
      * rewrite filter_cons_True by done. by rewrite IH.
      * exact IH.
  - split; [done|]. split; [done|]. split; done.
Qed.

End ChatMessagesFacts.

Section LastSeenFacts.
Import ChatMessages.
Variable toLocaleDateString : Z -> string.

(** X22: [formatLastSeen] answers "Unknown" without a date and "Just now"
    under a minute, also for a date in the future; from one minute on it
    counts whole minutes, between 1 and 59, then whole hours, between 1 and
    23, with the plural ending exactly when the count is not 1; from a day
    on it shows the date. *)
Theorem formatLastSeen_cases :
  forall (now lastSeen : Z),
    let diffInSeconds := (now - lastSeen) / 1000 in
    formatLastSeen toLocaleDateString now None = "Unknown" /\
    (now - lastSeen < 60000 ->
     formatLastSeen toLocaleDateString now (Some lastSeen) = "Just now") /\
    (60000 <= now - lastSeen < 3600000 ->
     exists minutes,
       1 <= minutes <= 59 /\
       minutes * 60 <= diffInSeconds < (minutes + 1) * 60 /\
       formatLastSeen toLocaleDateString now (Some lastSeen)
       = pretty minutes +:+ (if minutes =? 1 then " minute ago" else " minutes ago")) /\
    (3600000 <= now - lastSeen < 86400000 ->
     exists hours,
       1 <= hours <= 23 /\
       hours * 3600 <= diffInSeconds < (hours + 1) * 3600 /\
       formatLastSeen toLocaleDateString now (Some lastSeen)
       = pretty hours +:+ (if hours =? 1 then " hour ago" else " hours ago")) /\
    (86400000 <= now - lastSeen ->
     formatLastSeen toLocaleDateString now (Some lastSeen)
     = toLocaleDateString lastSeen).
Proof.
  intros now lastSeen diffInSeconds.
  assert (forall bound, 0 < bound ->
            (diffInSeconds < bound <-> now - lastSeen < bound * 1000)) as Hseconds.
  { intros bound Hbound. subst diffInSeconds.
    pose proof (Z.div_mod (now - lastSeen) 1000 ltac:(lia)) as Hdiv.
    pose proof (Z.mod_pos_bound (now - lastSeen) 1000 ltac:(lia)) as Hmod.
    lia. }
  pose proof (Hseconds 60 ltac:(lia)) as H60.
  pose proof (Hseconds 3600 ltac:(lia)) as H3600.
  pose proof (Hseconds 86400 ltac:(lia)) as H86400.
  unfold formatLastSeen. fold diffInSeconds.
  split; [done|]. split; [|split; [|split]].
  - intros Hdiff. rewrite (proj2 (Z.ltb_lt _ _)) by (apply H60; lia). done.
  - intros Hdiff.
    rewrite (proj2 (Z.ltb_ge _ _)) by lia.
    rewrite (proj2 (Z.ltb_lt _ _)) by (apply H3600; lia).
    exists (diffInSeconds / 60).
    assert (60 <= diffInSeconds < 3600) as Hrange by lia.
    pose proof (Z.div_mod diffInSeconds 60 ltac:(lia)) as Hdiv.
    pose proof (Z.mod_pos_bound diffInSeconds 60 ltac:(lia)) as Hmod.
    split; [lia|]. split; [lia|].
    unfold ago. destruct (Z.eqb_spec (diffInSeconds / 60) 1) as [->|Hne].
    + done.
    + by rewrite (proj2 (Z.ltb_lt 1 _)) by lia.
  - intros Hdiff.
    rewrite !(proj2 (Z.ltb_ge _ _)) by lia.
    rewrite (proj2 (Z.ltb_lt _ _)) by (apply H86400; lia).
    exists (diffInSeconds / 3600).
    assert (3600 <= diffInSeconds < 86400) as Hrange by lia.
    pose proof (Z.div_mod diffInSeconds 3600 ltac:(lia)) as Hdiv.
    pose proof (Z.mod_pos_bound diffInSeconds 3600 ltac:(lia)) as Hmod.
    split; [lia|]. split; [lia|].
    unfold ago. destruct (Z.eqb_spec (diffInSeconds / 3600) 1) as [->|Hne].
    + done.
    + by rewrite (proj2 (Z.ltb_lt 1 _)) by lia.
  - intros Hdiff. rewrite !(proj2 (Z.ltb_ge _ _)) by lia. done.
Qed.

End LastSeenFacts.

Section CleanupFacts.
Import ChatComponent ChatMessages.

(** With no timeout pending, events other than a signal of the peer leave
    the indicator as it is. *)
Lemma quiet_unarmed (peer : string) (silence : list Event) (h : TypingHook) :
  quiet peer silence -> timers h = ∅ ->
  isOtherUserTyping (run peer silence h) = isOtherUserTyping h.
Proof.
  intros Hquiet. revert h.
  induction Hquiet as [|e rest He _ IH]; simpl; intros h Htimers; [done|].
  destruct e as [userId|ms]; simpl.
  - unfold onTyping. rewrite decide_False by done. by apply IH.
  - rewrite IH.
    + unfold elapse; simpl. rewrite Htimers, map_filter_empty.
      by rewrite decide_True.
    + unfold elapse; simpl. by rewrite Htimers, map_filter_empty.
Qed.

(** X23: the cleanup of the typing hook leaves no timeout pending and does
    not write the indicator: an indicator that is on when the hook is
    cleaned up stays on, however much time passes, until the peer the hook
    then listens to sends a signal. *)
Theorem cleanup_leaves_indicator :
  forall (peer newPeer : string) (history silence : list Event),
    let h := run peer history mounted in
    timers (cleanup h) = ∅ /\
    isOtherUserTyping (cleanup h) = isOtherUserTyping h /\
    (quiet newPeer silence ->
     isOtherUserTyping (run newPeer silence (cleanup h)) = isOtherUserTyping h).
Proof.
  intros peer newPeer history silence h.
  assert (timers (cleanup h) = ∅) as Hcleared.
  { apply cleared_timers. apply run_onlyRefPending, mounted_onlyRefPending. }
  assert (isOtherUserTyping (cleanup h) = isOtherUserTyping h) as Hkept.
  { unfold cleanup. by destruct (typingTimeoutRef h). }
  split; [done|]. split; [done|].
  intros Hquiet. by rewrite quiet_unarmed.
Qed.

End CleanupFacts.

Section BoostFacts.
Import JsNumber Feed.









End BoostFacts.
